(** * DynamicForms: the field-class generator

    A shallow embedding of [Command.handle] from
    [dynamicforms_dev/management/commands/generate_fields.py]: the command
    walks the classes of DRF's [fields] and [relations] modules, merges the
    constructor signatures found along each class's method resolution order
    and prints one generated class per field into [dynamicforms/fields.py].

    The host framework is data here: a class is described by what
    [inspect.signature(cls.__init__)] returns, a module by its [__dict__]. *)

From Stdlib Require Import ZArith String Ascii List Bool Lia DecimalString.
From stdpp Require Import base gmap strings list.

Local Open Scope string_scope.
Local Open Scope list_scope.

(** ** What [inspect] shows of the host hierarchy *)

(** [inspect.Parameter.kind] *)
Inductive Kind : Set :=
| POSITIONAL_ONLY
| POSITIONAL_OR_KEYWORD
| VAR_POSITIONAL
| KEYWORD_ONLY
| VAR_KEYWORD.

#[global] Instance Kind_eq_dec : EqDecision Kind.
Proof. solve_decision. Defined.

(** The objects that can sit in [Parameter.annotation] and
    [Parameter.default].  A float is carried with its [repr] text, any object
    the generator has no case for with its [str] text. *)
Inductive PyValue : Set :=
| Py_empty                      (* inspect._empty: nothing declared *)
| PyStr (s : string)
| PyInt (n : Z)
| PyFloat (shown : string)
| PyBool (b : bool)
| PyNone
| PyUUID                        (* the class uuid.UUID *)
| PyFieldsEmpty                 (* the class rest_framework.fields.empty *)
| PyObject (shown : string).

#[global] Instance PyValue_eq_dec : EqDecision PyValue.
Proof. solve_decision. Defined.

(** [inspect.Parameter] *)
Record Parm : Set := mkParm {
  name : string;
  kind : Kind;
  annotation : PyValue;
  default : PyValue
}.

#[global] Instance Parm_eq_dec : EqDecision Parm.
Proof. solve_decision. Defined.

(** A class as the generator looks at it: [__module__], [__name__] and the
    parameters of [inspect.signature(cls.__init__)], the first one being
    [self].  [cls_init = None] stands for a class without [__init__]
    attribute, the case [hasattr(cls, '__init__')] guards against. *)
Record ClassDesc : Set := mkClass {
  cls_module : string;
  cls_name : string;
  cls_init : option (list Parm)
}.

#[global] Instance ClassDesc_eq_dec : EqDecision ClassDesc.
Proof. solve_decision. Defined.

(** A class object together with the rest of its [__mro__]. *)
Record PyClass : Set := mkPyClass {
  cls : ClassDesc;
  bases : list ClassDesc
}.

#[global] Instance PyClass_eq_dec : EqDecision PyClass.
Proof. solve_decision. Defined.

Definition mro (c : PyClass) : list ClassDesc := cls c :: bases c.

(** Classes are compared by identity; two descriptors denote the same class
    when module and name agree. *)
Definition same_class (a b : ClassDesc) : bool :=
  bool_decide (cls_module a = cls_module b) && bool_decide (cls_name a = cls_name b).

Definition is_class (module_ name_ : string) (c : ClassDesc) : bool :=
  bool_decide (cls_module c = module_) && bool_decide (cls_name c = name_).

(** [cls == fields.Field] *)
Definition is_Field : ClassDesc -> bool := is_class "rest_framework.fields" "Field".
(** [cls == relations.RelatedField] *)
Definition is_RelatedField : ClassDesc -> bool :=
  is_class "rest_framework.relations" "RelatedField".

(** [issubclass(obj, base)], read off the MRO *)
Definition issubclass (obj : PyClass) (is_base : ClassDesc -> bool) : bool :=
  existsb is_base (mro obj).

(** A value of a module's [__dict__]. *)
Inductive PyObj : Set :=
| ObjClass (c : PyClass)
| ObjOther.

(** ** [repr] and [str] of the values above *)

Definition hex_digit (n : N) : ascii :=
  match n with
  | 0 => "0" | 1 => "1" | 2 => "2" | 3 => "3" | 4 => "4" | 5 => "5" | 6 => "6" | 7 => "7"
  | 8 => "8" | 9 => "9" | 10 => "a" | 11 => "b" | 12 => "c" | 13 => "d" | 14 => "e"
  | _ => "f"
  end%N%char.

Definition contains_char (c : ascii) (s : string) : bool :=
  existsb (Ascii.eqb c) (list_ascii_of_string s).

(** The quote [repr] picks: a double quote only when the text has a single
    quote and no double quote. *)
Definition repr_quote (s : string) : ascii :=
  if contains_char "'"%char s && negb (contains_char "034"%char s)
  then "034"%char else "'"%char.

(** One character of [repr(str)], for ASCII text; bytes above 127 are taken
    to belong to printable characters and are kept. *)
Definition repr_char (quote c : ascii) : string :=
  let n := N_of_ascii c in
  if Ascii.eqb c quote || Ascii.eqb c "\"%char then String "\"%char (String c "")
  else if (n =? 9)%N then "\t"
  else if (n =? 10)%N then "\n"
  else if (n =? 13)%N then "\r"
  else if (n <? 32)%N || (n =? 127)%N
       then String "\"%char (String "x"%char
              (String (hex_digit (n / 16)) (String (hex_digit (n mod 16)) "")))
  else String c "".

Fixpoint repr_chars (quote : ascii) (s : string) : string :=
  match s with
  | "" => ""
  | String c s' => repr_char quote c +:+ repr_chars quote s'
  end.

Definition repr_str (s : string) : string :=
  let q := repr_quote s in String q (repr_chars q s +:+ String q "").

Definition repr_int (n : Z) : string := NilZero.string_of_int (Z.to_int n).

(** [repr(v)] *)
Definition repr (v : PyValue) : string :=
  match v with
  | Py_empty => "<class 'inspect._empty'>"
  | PyStr s => repr_str s
  | PyInt n => repr_int n
  | PyFloat shown => shown
  | PyBool true => "True"
  | PyBool false => "False"
  | PyNone => "None"
  | PyUUID => "<class 'uuid.UUID'>"
  | PyFieldsEmpty => "<class 'rest_framework.fields.empty'>"
  | PyObject shown => shown
  end.

(** [str(v)], what an f-string shows *)
Definition py_str (v : PyValue) : string :=
  match v with
  | PyStr s => s
  | _ => repr v
  end.

(** [isinstance(v, (str, int, float, bool,)) or v is None] *)
Definition is_literal (v : PyValue) : bool :=
  match v with
  | PyStr _ | PyInt _ | PyFloat _ | PyBool _ | PyNone => true
  | _ => false
  end.

(** ** The value encoder (lines 74-94)

    Both functions return the text added to [parm_str] and the lines printed
    to standard output. *)

(** lines 77-86 *)
Definition encode_annotation (parm : Parm) : string * list string :=
  let p_an := annotation parm in
  if bool_decide (p_an <> Py_empty) then
    if is_literal p_an then (": " +:+ repr p_an, [])
    else if bool_decide (p_an = PyUUID) then (": " +:+ "UUID", [])
    else ("", ["Error: parameter " +:+ name parm +:+ " annotation is of unknown type "
                 +:+ py_str (annotation parm) +:+ "."])
  else ("", []).

(** lines 88-94; [fields.empty] is printed as the last component of its
    module, a dot and its name. *)
Definition encode_default (parm : Parm) : string * list string :=
  let p_def := default parm in
  if bool_decide (p_def <> Py_empty) then
    if is_literal p_def then ("=" +:+ repr p_def, [])
    else if bool_decide (p_def = PyFieldsEmpty) then ("=" +:+ "fields.empty", [])
    else ("", ["Error: parameter " +:+ name parm +:+ " default is of unknown type "
                 +:+ py_str (default parm) +:+ "."])
  else ("", []).

(** [parm_str] as it stands at line 96 *)
Definition parm_str (parm : Parm) : string :=
  name parm +:+ (encode_annotation parm).1 +:+ (encode_default parm).1.

(** what lines 77-94 print for one parameter *)
Definition parm_errors (parm : Parm) : list string :=
  (encode_annotation parm).2 ++ (encode_default parm).2.

(** ** The signature merger (lines 38-104) *)

(** An element of [field_params]: the string appended at line 98, kept with
    the parameter it was built from. *)
Record Entry : Set := mkEntry {
  e_parm : Parm;
  e_str : string
}.

#[global] Instance Entry_eq_dec : EqDecision Entry.
Proof. solve_decision. Defined.

(** The variables of the loop over [param_classes], and what was printed. *)
Record MergeState : Type := mkState {
  field_params : list Entry;
  field_params_names : gset string;
  skip_depth : nat;
  printed : list string
}.

Definition init_state : MergeState :=
  {| field_params := []; field_params_names := ∅; skip_depth := 0; printed := [] |}.

(** lines 42-45: [enumerate(field.__mro__)] up to and including
    [fields.Field] *)
Fixpoint enumerate_until_Field (depth : nat) (classes : list ClassDesc)
  : list (nat * ClassDesc) :=
  match classes with
  | [] => []
  | c :: rest =>
      (depth, c) :: (if is_Field c then [] else enumerate_until_Field (S depth) rest)
  end.

(** lines 41-46 *)
Definition param_classes (field : PyClass) (UUIDMixIn : ClassDesc)
  : list (nat * ClassDesc) :=
  enumerate_until_Field 0 (mro field) ++ [(0, UUIDMixIn)].

(** line 63, second disjunct *)
Definition is_var (k : Kind) : bool :=
  bool_decide (k = VAR_KEYWORD) || bool_decide (k = VAR_POSITIONAL).

(** lines 68-69 *)
Definition positional_no_default (parm : Parm) : bool :=
  bool_decide (kind parm = POSITIONAL_ONLY)
  || (bool_decide (kind parm = POSITIONAL_OR_KEYWORD)
      && bool_decide (default parm = Py_empty)).

(** lines 58-60 *)
Definition unwanted (field_class : string) (parm : Parm) : bool :=
  bool_decide (field_class = "BooleanField") && bool_decide (name parm = "allow_null").

(** line 63 *)
Definition self_or_var (parm : Parm) : bool :=
  bool_decide (name parm = "self") || is_var (kind parm).

(** lines 67-70 *)
Definition ordering_skip (depth : nat) (st : MergeState) (parm : Parm) : bool :=
  negb (depth =? 0)%nat && negb (length (field_params st) =? 0)%nat
  && positional_no_default parm.

(** lines 58-98: the body of the loop over the parameters of one class.
    The state is paired with [had_kwds]. *)
Definition process_parm (field_class : string) (depth : nat)
    (acc : MergeState * bool) (parm : Parm) : MergeState * bool :=
  let '(st, had_kwds) := acc in
  if unwanted field_class parm then acc
  else if self_or_var parm
  then (st, had_kwds || bool_decide (kind parm = VAR_KEYWORD))
  else if ordering_skip depth st parm then acc
  else
    let out := printed st ++ parm_errors parm in
    if bool_decide (name parm ∈ field_params_names st)
    then ({| field_params := field_params st;
             field_params_names := field_params_names st;
             skip_depth := skip_depth st;
             printed := out |}, had_kwds)
    else ({| field_params := field_params st ++ [mkEntry parm (parm_str parm)];
             field_params_names := {[name parm]} ∪ field_params_names st;
             skip_depth := skip_depth st;
             printed := out |}, had_kwds).

Definition with_skip_depth (d : nat) (st : MergeState) : MergeState :=
  {| field_params := field_params st;
     field_params_names := field_params_names st;
     skip_depth := d;
     printed := printed st |}.

(** lines 52-101: a class that is not skipped *)
Definition process_class (field_class : string) (depth : nat) (c : ClassDesc)
    (st : MergeState) : MergeState :=
  let st := with_skip_depth 0 st in
  match cls_init c with
  | Some parameters =>
      let '(st', had_kwds) :=
        fold_left (process_parm field_class depth) parameters (st, false) in
      if had_kwds then with_skip_depth (depth + 1) st' else st'
  | None => st
  end.

(** lines 49-101: one turn of the loop over [param_classes] *)
Definition visit (field_class : string) (st : MergeState) (dc : nat * ClassDesc)
  : MergeState :=
  let '(depth, c) := dc in
  if (skip_depth st <? depth)%nat then st
  else process_class field_class depth c st.

(** lines 39-101 *)
Definition merge (field : PyClass) (UUIDMixIn : ClassDesc) : MergeState :=
  fold_left (visit (cls_name (cls field))) (param_classes field UUIDMixIn) init_state.

(** The two fixed ends of the signature, lines 103-104. *)
Definition self_entry : Entry :=
  mkEntry (mkParm "self" POSITIONAL_OR_KEYWORD Py_empty Py_empty) "self".
Definition kw_entry : Entry :=
  mkEntry (mkParm "kw" VAR_KEYWORD Py_empty Py_empty) "**kw".

(** [field_params] after lines 103-104 *)
Definition signature (st : MergeState) : list Entry :=
  self_entry :: field_params st ++ [kw_entry].

Definition entry_name (e : Entry) : string := name (e_parm e).
Definition signature_names (st : MergeState) : list string :=
  entry_name <$> signature st.
Definition signature_strs (st : MergeState) : list string :=
  e_str <$> signature st.

(** ** [str] methods and [textwrap] *)

Definition nl : string := String "010"%char "".

(** [sep.join(l)] *)
Fixpoint join (sep : string) (l : list string) : string :=
  match l with
  | [] => ""
  | x :: rest =>
      match rest with
      | [] => x
      | _ :: _ => x +:+ sep +:+ join sep rest
      end
  end.

(** [s.replace(old, new)] for a pattern [old] of the two characters [a], [b] *)
Fixpoint replace2 (a b : ascii) (new : string) (s : string) : string :=
  match s with
  | "" => ""
  | String c t =>
      match t with
      | "" => s
      | String d r =>
          if Ascii.eqb c a && Ascii.eqb d b then new +:+ replace2 a b new r
          else String c (replace2 a b new t)
      end
  end.

(** [s.split('\n')] *)
Fixpoint split_lines (s : string) : list string :=
  match s with
  | "" => [""]
  | String c t =>
      if Ascii.eqb c "010"%char then "" :: split_lines t
      else match split_lines t with
           | l :: ls => String c l :: ls
           | [] => [String c ""]
           end
  end.

(** [s.lstrip(' ')] *)
Fixpoint lstrip_spaces (s : string) : string :=
  match s with
  | String c t => if Ascii.eqb c " "%char then lstrip_spaces t else s
  | "" => ""
  end.

(** [s.strip() == ''], for text whose only whitespace is the space *)
Fixpoint is_blank (s : string) : bool :=
  match s with
  | "" => true
  | String c t => Ascii.eqb c " "%char && is_blank t
  end.

Fixpoint spaces (n : nat) : string :=
  match n with
  | 0 => ""
  | S n' => String " "%char (spaces n')
  end.

(** [s.startswith(prefixes)] for a tuple of prefixes *)
Definition startswith (prefixes : list string) (s : string) : bool :=
  existsb (fun p => String.prefix p s) prefixes.

(** [s.endswith(suffix)] *)
Definition endswith (suffix s : string) : bool :=
  String.prefix (String.rev suffix) (String.rev s).

(** [textwrap.indent(text, prefix)]: the prefix goes before every line that
    is not blank. *)
Definition indent (text prefix : string) : string :=
  join nl (map (fun line => if is_blank line then line else prefix +:+ line)
               (split_lines text)).

(** The character classes of [TextWrapper.wordsep_re], for ASCII text:
    a word character ([\w]), a letter (a word character that is no digit)
    and the word punctuation: a word character, an exclamation mark, a
    double or single quote, an ampersand, a full stop, a comma or a
    question mark. *)
Definition is_digit (c : ascii) : bool :=
  let n := N_of_ascii c in ((48 <=? n) && (n <=? 57))%N.
Definition is_letter (c : ascii) : bool :=
  let n := N_of_ascii c in
  (((65 <=? n) && (n <=? 90)) || ((97 <=? n) && (n <=? 122)) || (n =? 95))%N.
Definition is_word (c : ascii) : bool := is_letter c || is_digit c.
Definition is_word_punct (c : ascii) : bool :=
  is_word c
  || existsb (Ascii.eqb c) ["!"; "034"; "'"; "&"; "."; ","; "?"]%char.
Definition is_space (c : ascii) : bool := Ascii.eqb c " "%char.

(** [-{2,}\w] at the head of [s], after [n] hyphens already read *)
Fixpoint dashes_then_word (n : nat) (s : string) : bool :=
  match s with
  | String c t =>
      if Ascii.eqb c "-"%char then dashes_then_word (S n) t
      else (2 <=? n)%nat && is_word c
  | "" => false
  end.

(** The text read backwards is two hyphens or more and then a character of
    the word punctuation: the place behind an em-dash between words. *)
Fixpoint dashes_after_punct (n : nat) (before : string) : bool :=
  match before with
  | String c t =>
      if Ascii.eqb c "-"%char then dashes_after_punct (S n) t
      else (2 <=? n)%nat && is_word_punct c
  | "" => false
  end.

(** The place behind the hyphen of a hyphenated word: the lookbehinds
    [(?<=lt{2}-)] and [(?<=lt-lt-)] on the text read backwards, the
    lookahead [(?=lt-?lt)] on the text that follows. *)
Definition hyphen_break (before after : string) : bool :=
  match before with
  | String h (String x (String y b)) =>
      Ascii.eqb h "-"%char && is_letter x
      && (is_letter y
          || (Ascii.eqb y "-"%char
              && match b with String z _ => is_letter z | "" => false end))
  | _ => false
  end
  && match after with
     | String a (String b r) =>
         is_letter a
         && (is_letter b
             || (Ascii.eqb b "-"%char
                 && match r with String c _ => is_letter c | "" => false end))
     | _ => false
     end.

(** Whether a match of [wordsep_re] ends between [before], the text up to
    here read backwards, and [after]: where spaces meet other characters,
    behind the hyphen of a hyphenated word, and before and behind an
    em-dash between words. *)
Definition breaks_between (before after : string) : bool :=
  match before, after with
  | String p _, String n _ =>
      if Bool.eqb (is_space p) (is_space n)
      then negb (is_space p)
           && (hyphen_break before after
               || (is_word_punct p && dashes_then_word 0 after)
               || (dashes_after_punct 0 before && is_word n))
      else true
  | _, _ => false
  end.

Fixpoint chunks_from (before s : string) : list string :=
  match s with
  | "" => []
  | String c t =>
      match chunks_from (String c before) t with
      | ch :: rest =>
          if breaks_between (String c before) t then String c "" :: ch :: rest
          else String c ch :: rest
      | [] => [String c ""]
      end
  end.

(** The chunks [TextWrapper._split] hands to [_wrap_chunks] with the
    default [break_on_hyphens]: the matches of [wordsep_re], which tile the
    text.  The text is ASCII and its only whitespace is the space, as it is
    in a parameter list, where [repr] escapes the rest. *)
Definition split_chunks (s : string) : list string := chunks_from "" s.

(** The inner loop of [_wrap_chunks]: chunks are moved to the current line
    while they fit. *)
Fixpoint take_fitting (width cur_len : nat) (chunks : list string)
  : list string * list string :=
  match chunks with
  | [] => ([], [])
  | c :: rest =>
      if (cur_len + String.length c <=? width)%nat
      then let '(line, remaining) := take_fitting width (cur_len + String.length c) rest in
           (c :: line, remaining)
      else ([], chunks)
  end.

Definition chunks_length (chunks : list string) : nat :=
  foldr (fun c n => (String.length c + n)%nat) 0%nat chunks.

(** [chunk.rfind('-', 0, stop)] *)
Fixpoint rfind_hyphen (chunk : string) (stop : nat) : option nat :=
  match stop, chunk with
  | S stop', String c t =>
      match rfind_hyphen t stop' with
      | Some i => Some (S i)
      | None => if Ascii.eqb c "-"%char then Some 0%nat else None
      end
  | _, _ => None
  end.

(** [any(c != '-' for c in s)] *)
Definition has_non_hyphen (s : string) : bool :=
  existsb (fun c => negb (Ascii.eqb c "-"%char)) (list_ascii_of_string s).

(** Where [_handle_long_word] cuts a chunk that is longer than the width:
    behind the last hyphen that fits when there is one with something
    other than hyphens before it, else where the line is full (CPython 3.10
    and later; before that the cut is always where the line is full). *)
Definition long_word_cut (chunk : string) (space_left : nat) : nat :=
  if (space_left <? String.length chunk)%nat then
    match rfind_hyphen chunk space_left with
    | Some hyphen =>
        if (0 <? hyphen)%nat && has_non_hyphen (substring 0 hyphen chunk)
        then (hyphen + 1)%nat else space_left
    | None => space_left
    end
  else space_left.

(** [_handle_long_word] with [break_long_words] set *)
Definition handle_long_word (chunks cur_line : list string) (cur_len width : nat)
  : list string * list string :=
  let space_left := if (width <? 1)%nat then 1%nat else (width - cur_len)%nat in
  match chunks with
  | chunk :: rest =>
      let cut := long_word_cut chunk space_left in
      (cur_line ++ [substring 0 cut chunk],
       substring cut (String.length chunk - cut) chunk :: rest)
  | [] => (cur_line, chunks)
  end.

Definition drop_last_blank (cur_line : list string) : list string :=
  match last cur_line with
  | Some c => if is_blank c then removelast cur_line else cur_line
  | None => cur_line
  end.

(** One turn of the outer loop of [_wrap_chunks], with the default settings
    ([drop_whitespace], no indents, no [max_lines]). *)
Definition wrap_line (width : nat) (lines chunks : list string)
  : list string * list string :=
  let chunks :=
    match chunks with
    | c :: rest =>
        if is_blank c && negb (bool_decide (lines = [])) then rest else chunks
    | [] => chunks
    end in
  let '(cur_line, chunks) := take_fitting width 0 chunks in
  let '(cur_line, chunks) :=
    match chunks with
    | c :: _ =>
        if (width <? String.length c)%nat
        then handle_long_word chunks cur_line (chunks_length cur_line) width
        else (cur_line, chunks)
    | [] => (cur_line, chunks)
    end in
  let cur_line := drop_last_blank cur_line in
  (match cur_line with
   | [] => lines
   | _ :: _ => lines ++ [String.concat "" cur_line]
   end, chunks).

(** [while chunks: ...]; every turn uses up at least one character, so as
    many turns as the text has characters empty the list. *)
Fixpoint wrap_chunks (fuel width : nat) (lines chunks : list string) : list string :=
  match fuel with
  | 0 => lines
  | S fuel' =>
      match chunks with
      | [] => lines
      | _ :: _ =>
          let '(lines', chunks') := wrap_line width lines chunks in
          wrap_chunks fuel' width lines' chunks'
      end
  end.

(** [textwrap.wrap(text, width=width)] *)
Definition wrap (text : string) (width : nat) : list string :=
  wrap_chunks (S (String.length text)) width [] (split_chunks text).

Fixpoint leading_spaces (s : string) : nat :=
  match s with
  | String c t => if Ascii.eqb c " "%char then S (leading_spaces t) else 0
  | "" => 0
  end.

(** [textwrap.dedent(text)], for text indented with spaces: blank lines
    become empty, the other lines lose their common margin. *)
Definition dedent (text : string) : string :=
  let lines := map (fun l => if is_blank l then "" else l) (split_lines text) in
  let indents := map leading_spaces (filter (fun l => negb (is_blank l)) lines) in
  let margin :=
    match indents with
    | [] => 0%nat
    | i :: rest => foldr Nat.min i rest
    end in
  join nl (map (fun l => substring margin (String.length l - margin) l) lines).

(** ** The emitter (lines 103-124) *)

(** lines 103-106: the parameter list as it is put between the parentheses
    of [def __init__(...)] *)
Definition wrapped_params (st : MergeState) : list string :=
  wrap (replace2 ":"%char " "%char ":_" (join ", " (signature_strs st))) 103.

Definition render_params (st : MergeState) : string :=
  replace2 ":"%char "_"%char ": "
    (lstrip_spaces (indent (join nl (wrapped_params st)) (spaces 37))).

(** lines 108-112 *)
Definition additional_inspects (field_class : string) (st : MergeState) : string :=
  (if bool_decide (field_class ∈ ["SerializerMethodField"; "HiddenField"; "ReadOnlyField"])
   then ",PyAbstractClass" else "")
  +:+ (if bool_decide ("format" ∈ field_params_names st) then ",PyShadowingBuiltins" else "").

(** line 113; [fields_names] are the keys of [fields.__dict__] *)
Definition field_module (fields_names : list string) (field_class : string) : string :=
  if bool_decide (field_class ∈ fields_names) then "fields." else "relations.".

(** lines 115-123: the f-string before [textwrap.dedent] *)
Definition class_template (inspects field_class module_ params : string) : string :=
  nl +:+ spaces 16 +:+ nl
  +:+ spaces 20 +:+ "# noinspection PyRedeclaration" +:+ inspects +:+ nl
  +:+ spaces 20 +:+ "class " +:+ field_class
        +:+ "(UUIDMixIn, ActionMixin, RenderToTableMixin, " +:+ module_ +:+ field_class
        +:+ "):" +:+ nl
  +:+ spaces 20 +:+ nl
  +:+ spaces 24 +:+ "def __init__(" +:+ params +:+ "):" +:+ nl
  +:+ spaces 28
        +:+ "kwargs = {k: v for k, v in locals().items() if not k.startswith(('__', 'self', 'kw'))}"
        +:+ nl
  +:+ spaces 28 +:+ "kwargs.update(kw)" +:+ nl
  +:+ spaces 28 +:+ "super().__init__(**kwargs)".

(** lines 39-124 for one class: what goes to the file and what is printed
    on standard output *)
Definition generate_class (fields_names : list string) (UUIDMixIn : ClassDesc)
    (field : PyClass) : string * list string :=
  let field_class := cls_name (cls field) in
  let st := merge field UUIDMixIn in
  (dedent (class_template (additional_inspects field_class st) field_class
             (field_module fields_names field_class) (render_params st)),
   printed st).

(** lines 24-27 *)
Definition from_fields (obj : PyObj) : option PyClass :=
  match obj with
  | ObjClass c =>
      if negb (is_Field (cls c)) && issubclass c is_Field
         && negb (startswith ["_"] (cls_name (cls c)))
      then Some c else None
  | ObjOther => None
  end.

(** lines 29-32 *)
Definition from_relations (obj : PyObj) : option PyClass :=
  match obj with
  | ObjClass c =>
      if negb (is_RelatedField (cls c)) && issubclass c is_RelatedField
         && endswith "Field" (cls_name (cls c))
      then Some c else None
  | ObjOther => None
  end.

(** lines 23-32; a module's [__dict__] is the list of its items *)
Definition field_list (fields_dict relations_dict : list (string * PyObj)) : list PyClass :=
  omap from_fields fields_dict.*2 ++ omap from_relations relations_dict.*2.

(** What the run leaves behind: the strings printed to [fields.py], one per
    [print] call, and the lines printed on standard output. *)
Record Run : Set := mkRun {
  output : list string;
  stdout : list string
}.

(** lines 34-36 *)
Definition file_header : list string :=
  ["from uuid import UUID" +:+ nl;
   "from rest_framework import fields, relations";
   "from .mixins import ActionMixin, RenderToTableMixin, UUIDMixIn"].

(** lines 38-124: one turn of the loop over [field_list] *)
Definition emit (fields_names : list string) (UUIDMixIn : ClassDesc)
    (run : Run) (field : PyClass) : Run :=
  let '(block, errors) := generate_class fields_names UUIDMixIn field in
  {| output := output run ++ [block]; stdout := stdout run ++ errors |}.

(** [Command.handle]; the file is opened for writing before anything else
    and every [print(..., file=output)] goes straight to it. *)
Definition handle (fields_dict relations_dict : list (string * PyObj))
    (UUIDMixIn : ClassDesc) : Run :=
  let run :=
    fold_left (emit fields_dict.*1 UUIDMixIn)
      (field_list fields_dict relations_dict)
      {| output := file_header; stdout := [] |} in
  {| output := output run;
     stdout := stdout run ++ ["fields.py successfully generated"] |}.

(** The text of [fields.py]: [print] ends each string with a newline. *)
Definition file_text (run : Run) : string :=
  String.concat "" (map (fun s => s +:+ nl) (output run)).

(** ** The constructor of a generated class (lines 120-123)

    What the generated [def __init__(...)] declares is read off the text
    that is written between the parentheses, with Python's tokens and
    parameter grammar as far as that text can use them: names, the
    literals [repr] writes, [fields.empty], [UUID], commas, colons, equals
    signs and [**].  Python then binds the call's keyword arguments to the
    declared parameters and to [kw], and the body builds [kwargs] from
    [locals()] and [kw] and passes it on. *)

Inductive Token : Set :=
| TName (s : string)
| TNumber (s : string)
| TString (s : string)           (* the value of the literal *)
| TComma
| TColon
| TEq
| TStarStar
| TDot
| TMinus.

#[global] Instance Token_eq_dec : EqDecision Token.
Proof. solve_decision. Defined.

(** Where the tokenizer is: between tokens, in a name, in a number, in a
    string literal opened by [q] (after a backslash, after [\x], after
    [\x] and one digit), behind an empty string literal, behind one
    star.  The characters read so far are kept last first. *)
Inductive LexMode : Set :=
| Idle
| InName (acc : string)
| InNumber (acc : string)
| InString (q : ascii) (acc : string)
| Escaped (q : ascii) (acc : string)
| Hex1 (q : ascii) (acc : string)
| Hex2 (q : ascii) (acc : string) (d : N)
| AfterEmpty (q : ascii)
| Star.

Definition is_quote (c : ascii) : bool := Ascii.eqb c "'"%char || Ascii.eqb c "034"%char.

Definition hex_value (c : ascii) : option N :=
  let n := N_of_ascii c in
  if ((48 <=? n) && (n <=? 57))%N then Some (n - 48)%N
  else if ((97 <=? n) && (n <=? 102))%N then Some (n - 87)%N
  else if ((65 <=? n) && (n <=? 70))%N then Some (n - 55)%N
  else None.

(** The first character of a token, or white space between tokens; inside
    the parentheses a line break is white space. *)
Definition start_token (c : ascii) : option (list Token * LexMode) :=
  if is_space c || Ascii.eqb c "010"%char then Some ([], Idle)
  else if is_letter c then Some ([], InName (String c ""))
  else if is_digit c then Some ([], InNumber (String c ""))
  else if is_quote c then Some ([], InString c "")
  else if Ascii.eqb c ","%char then Some ([TComma], Idle)
  else if Ascii.eqb c ":"%char then Some ([TColon], Idle)
  else if Ascii.eqb c "="%char then Some ([TEq], Idle)
  else if Ascii.eqb c "."%char then Some ([TDot], Idle)
  else if Ascii.eqb c "-"%char then Some ([TMinus], Idle)
  else if Ascii.eqb c "*"%char then Some ([], Star)
  else None.

(** The exponent of a number may carry a sign. *)
Definition in_exponent (acc : string) : bool :=
  match acc with
  | String e _ => Ascii.eqb e "e"%char || Ascii.eqb e "E"%char
  | "" => false
  end.

(** The tokens of [s]; [None] where the tokenizer stops with an error: a
    line break or the end of the text inside a string literal, a
    character no token starts with, a single star; and for what the
    emitted text never has: a string prefix, a triple quote, an escape
    [repr] does not write.  A backslash at the end of a line continues a
    string literal on the next line. *)
Fixpoint lex (mode : LexMode) (s : string) : option (list Token) :=
  match s with
  | "" =>
      match mode with
      | Idle | AfterEmpty _ => Some []
      | InName acc => Some [TName (String.rev acc)]
      | InNumber acc => Some [TNumber (String.rev acc)]
      | _ => None
      end
  | String c t =>
      let next (done : list Token) (c : ascii) :=
        match start_token c with
        | Some (tokens, mode') =>
            match lex mode' t with
            | Some more => Some (done ++ tokens ++ more)
            | None => None
            end
        | None => None
        end in
      match mode with
      | Idle => next [] c
      | InName acc =>
          if is_word c then lex (InName (String c acc)) t
          else if is_quote c then None
          else next [TName (String.rev acc)] c
      | InNumber acc =>
          if is_word c || Ascii.eqb c "."%char then lex (InNumber (String c acc)) t
          else if (Ascii.eqb c "+"%char || Ascii.eqb c "-"%char) && in_exponent acc
               then lex (InNumber (String c acc)) t
          else next [TNumber (String.rev acc)] c
      | InString q acc =>
          if Ascii.eqb c q then
            match acc with
            | "" => match lex (AfterEmpty q) t with
                    | Some more => Some (TString "" :: more)
                    | None => None
                    end
            | _ => match lex Idle t with
                   | Some more => Some (TString (String.rev acc) :: more)
                   | None => None
                   end
            end
          else if Ascii.eqb c "\"%char then lex (Escaped q acc) t
          else if Ascii.eqb c "010"%char || Ascii.eqb c "013"%char then None
          else lex (InString q (String c acc)) t
      | Escaped q acc =>
          if Ascii.eqb c "\"%char || is_quote c then lex (InString q (String c acc)) t
          else if Ascii.eqb c "t"%char then lex (InString q (String "009"%char acc)) t
          else if Ascii.eqb c "n"%char then lex (InString q (String "010"%char acc)) t
          else if Ascii.eqb c "r"%char then lex (InString q (String "013"%char acc)) t
          else if Ascii.eqb c "x"%char then lex (Hex1 q acc) t
          else if Ascii.eqb c "010"%char then lex (InString q acc) t
          else None
      | Hex1 q acc =>
          match hex_value c with
          | Some d => lex (Hex2 q acc d) t
          | None => None
          end
      | Hex2 q acc d =>
          match hex_value c with
          | Some d' => lex (InString q (String (ascii_of_N (16 * d + d')) acc)) t
          | None => None
          end
      | AfterEmpty q => if Ascii.eqb c q then None else next [] c
      | Star =>
          if Ascii.eqb c "*"%char
          then match lex Idle t with
               | Some more => Some (TStarStar :: more)
               | None => None
               end
          else None
      end
  end.

(** The value of a run of decimal digits. *)
Fixpoint digits_value (acc : Z) (s : string) : option Z :=
  match s with
  | "" => Some acc
  | String c t =>
      if is_digit c then digits_value (10 * acc + Z.of_N (N_of_ascii c - 48)) t
      else None
  end.

Fixpoint all_digits (s : string) : bool :=
  match s with
  | "" => true
  | String c t => is_digit c && all_digits t
  end.

Fixpoint skip_digits (s : string) : string :=
  match s with
  | String c t => if is_digit c then skip_digits t else s
  | "" => ""
  end.

(** [digits [. [digits]] [e [sign] digits]] with a point or an exponent:
    the float literals [repr] writes. *)
Definition is_float_literal (s : string) : bool :=
  match s with
  | String c _ =>
      is_digit c
      && let after_int := skip_digits s in
         let '(pointed, after_fraction) :=
           match after_int with
           | String p r => if Ascii.eqb p "."%char then (true, skip_digits r)
                           else (false, after_int)
           | "" => (false, "")
           end in
         match after_fraction with
         | "" => pointed
         | String e r =>
             (Ascii.eqb e "e"%char || Ascii.eqb e "E"%char)
             && let digits :=
                  match r with
                  | String sign r' =>
                      if Ascii.eqb sign "+"%char || Ascii.eqb sign "-"%char then r' else r
                  | "" => ""
                  end in
                negb (String.eqb digits "") && all_digits digits
         end
  | "" => false
  end.

Fixpoint skip_zeros (s : string) : string :=
  match s with
  | String c t => if Ascii.eqb c "0"%char then skip_zeros t else s
  | "" => ""
  end.

(** The value of a number token, negated when a minus sign stands before
    it: an integer without needless leading zero, or a float, carried
    with its text. *)
Definition number_value (negative : bool) (s : string) : option PyValue :=
  if all_digits s then
    match s with
    | String c (String _ _) =>
        if Ascii.eqb c "0"%char && negb (String.eqb (skip_zeros s) "")
        then None
        else option_map (fun n => PyInt (if negative then - n else n)) (digits_value 0 s)
    | _ => option_map (fun n => PyInt (if negative then - n else n)) (digits_value 0 s)
    end
  else if is_float_literal s
  then Some (PyFloat (if negative then String "-"%char s else s))
  else None.

(** An annotation or a default: a literal, or one of the names the
    generated module knows. *)
Definition read_expr (tokens : list Token) : option (PyValue * list Token) :=
  match tokens with
  | TString s :: rest => Some (PyStr s, rest)
  | TNumber n :: rest => option_map (fun v => (v, rest)) (number_value false n)
  | TMinus :: TNumber n :: rest => option_map (fun v => (v, rest)) (number_value true n)
  | TName a :: TDot :: TName b :: rest =>
      if String.eqb a "fields" && String.eqb b "empty" then Some (PyFieldsEmpty, rest)
      else None
  | TName a :: rest =>
      if String.eqb a "None" then Some (PyNone, rest)
      else if String.eqb a "True" then Some (PyBool true, rest)
      else if String.eqb a "False" then Some (PyBool false, rest)
      else if String.eqb a "UUID" then Some (PyUUID, rest)
      else None
  | _ => None
  end.

Definition keywords : list string :=
  ["False"; "None"; "True"; "and"; "as"; "assert"; "async"; "await"; "break"; "class";
   "continue"; "def"; "del"; "elif"; "else"; "except"; "finally"; "for"; "from"; "global";
   "if"; "import"; "in"; "is"; "lambda"; "nonlocal"; "not"; "or"; "pass"; "raise";
   "return"; "try"; "while"; "with"; "yield"].

(** One parameter of a [def]: a name with its default, if it has one, or
    the [**] parameter. *)
Inductive Item : Set :=
| Plain (n : string) (d : option PyValue)
| VarKw (n : string).

Definition read_item (tokens : list Token) : option Item :=
  match tokens with
  | [TStarStar; TName n] =>
      if bool_decide (n ∈ keywords) then None else Some (VarKw n)
  | TName n :: rest =>
      if bool_decide (n ∈ keywords) then None
      else
        let after_annotation :=
          match rest with
          | TColon :: r => option_map snd (read_expr r)
          | _ => Some rest
          end in
        match after_annotation with
        | Some [] => Some (Plain n None)
        | Some (TEq :: r) =>
            match read_expr r with
            | Some (v, []) => Some (Plain n (Some v))
            | _ => None
            end
        | _ => None
        end
  | _ => None
  end.

(** The tokens between the commas. *)
Fixpoint split_commas (tokens : list Token) : list (list Token) :=
  match tokens with
  | [] => [[]]
  | t :: rest =>
      if bool_decide (t = TComma) then [] :: split_commas rest
      else match split_commas rest with
           | item :: items => (t :: item) :: items
           | [] => [[t]]
           end
  end.

Fixpoint read_items (items : list (list Token)) : option (list Item) :=
  match items with
  | [] => Some []
  | tokens :: rest =>
      match read_item tokens, read_items rest with
      | Some item, Some more => Some (item :: more)
      | _, _ => None
      end
  end.

(** The parameters between [self] and [**kw], each with its default. *)
Fixpoint plain_items (items : list Item) : option (list (string * option PyValue)) :=
  match items with
  | [] => None
  | [VarKw n] => if String.eqb n "kw" then Some [] else None
  | Plain n d :: rest =>
      match plain_items rest with
      | Some more => Some ((n, d) :: more)
      | None => None
      end
  | VarKw _ :: _ => None
  end.

(** No parameter without default behind one with a default. *)
Fixpoint defaults_ordered (decls : list (string * option PyValue)) : bool :=
  match decls with
  | [] => true
  | (_, None) :: rest => defaults_ordered rest
  | (_, Some _) :: rest => forallb (fun nd => bool_decide (is_Some nd.2)) rest
  end.

(** The parameters a [def __init__(text)] declares between [self] and
    [**kw]; [None] when Python does not take the text for a parameter
    list or cannot evaluate a default or an annotation, and the module
    does not import. *)
Definition read_signature (text : string) : option (list (string * option PyValue)) :=
  match lex Idle text with
  | Some tokens =>
      match read_items (split_commas tokens) with
      | Some (Plain n None :: items) =>
          if String.eqb n "self" then
            match plain_items items with
            | Some decls =>
                if bool_decide (NoDup ("self" :: decls.*1 ++ ["kw"])) && defaults_ordered decls
                then Some decls else None
            | None => None
            end
          else None
      | _ => None
      end
  | None => None
  end.

(** What the [def __init__] written for a class declares. *)
Definition generated_signature (st : MergeState) : option (list (string * option PyValue)) :=
  read_signature (render_params st).

(** Binding of a call with keyword arguments [call] to the parameters
    between [self] and [**kw]: a parameter takes the argument of its name,
    else its default; a call that leaves a parameter without value raises
    [TypeError]. *)
Fixpoint bind_parms (decls : list (string * option PyValue)) (call : gmap string PyValue)
  : option (list (string * PyValue)) :=
  match decls with
  | [] => Some []
  | (n, d) :: rest =>
      match (match call !! n with Some v => Some v | None => d end) with
      | Some v =>
          match bind_parms rest call with
          | Some bound => Some ((n, v) :: bound)
          | None => None
          end
      | None => None
      end
  end.

(** [kw] receives the arguments that no declared parameter takes. *)
Definition bind_kw (decls : list (string * option PyValue)) (call : gmap string PyValue)
  : gmap string PyValue :=
  filter (fun kv => kv.1 ∉ decls.*1) call.

(** [locals()] at line 121: [self], the declared parameters, [kw] and the
    [__class__] cell that [super()] brings in. *)
Definition frame_locals (self_obj kw_obj class_cell : PyValue)
    (bound : list (string * PyValue)) : list (string * PyValue) :=
  ("self", self_obj) :: bound ++ [("kw", kw_obj); ("__class__", class_cell)].

(** line 121: the dict comprehension *)
Definition collect_kwargs (locals : list (string * PyValue)) : gmap string PyValue :=
  fold_left (fun m kv => <[kv.1 := kv.2]> m)
    (filter (fun kv => startswith ["__"; "self"; "kw"] kv.1 = false) locals) ∅.

(** lines 121-122: [kwargs.update(kw)] lets the keys of [kw] win *)
Definition init_body (locals : list (string * PyValue)) (kw : gmap string PyValue)
  : gmap string PyValue :=
  kw ∪ collect_kwargs locals.

(** The keyword arguments the constructor written for a class hands to
    [super().__init__] when called with [**call]; [None] when there is no
    such constructor, the written [def] being no Python, or when the call
    raises, as it does when [call] has a key [self] or leaves a parameter
    without value. *)
Definition forwarded (st : MergeState) (self_obj kw_obj class_cell : PyValue)
    (call : gmap string PyValue) : option (gmap string PyValue) :=
  match generated_signature st with
  | Some decls =>
      if bool_decide (is_Some (call !! "self")) then None
      else
        match bind_parms decls call with
        | Some bound =>
            Some (init_body (frame_locals self_obj kw_obj class_cell bound)
                    (bind_kw decls call))
        | None => None
        end
  | None => None
  end.

(** ** Vocabulary of the properties *)

(** The part of [param_classes] that comes from the MRO. *)
Definition chain (field : PyClass) : list (nat * ClassDesc) :=
  enumerate_until_Field 0 (mro field).

(** The loop over [param_classes] before its last turn, the mix-in's. *)
Definition merge_chain (field : PyClass) : MergeState :=
  fold_left (visit (cls_name (cls field))) (chain field) init_state.

Definition process (field_class : string) (st : MergeState) (dc : nat * ClassDesc)
  : MergeState :=
  process_class field_class dc.1 dc.2 st.

(** [had_kwds] after the loop over the parameters of [c]. *)
Definition sets_had_kwds (field_class : string) (parm : Parm) : bool :=
  negb (unwanted field_class parm) && bool_decide (kind parm = VAR_KEYWORD).

Definition class_had_kwds (field_class : string) (c : ClassDesc) : bool :=
  match cls_init c with
  | Some parameters => existsb (sets_had_kwds field_class) parameters
  | None => false
  end.

(** The entries of a chain that line 50 lets through: each one as long as
    all the ones before it left [had_kwds] set. *)
Fixpoint visited (field_class : string) (classes : list (nat * ClassDesc))
  : list (nat * ClassDesc) :=
  match classes with
  | [] => []
  | dc :: rest =>
      dc :: (if class_had_kwds field_class dc.2 then visited field_class rest else [])
  end.

(** [parm] is one of the parameters of [c.__init__]. *)
Definition declares (c : ClassDesc) (parm : Parm) : Prop :=
  ∃ parameters, cls_init c = Some parameters ∧ parm ∈ parameters.

(** The parameters the loop of line 56 runs over; none for a class that
    line 54 passes over. *)
Definition parameters_of (c : ClassDesc) : list Parm :=
  match cls_init c with
  | Some parameters => parameters
  | None => []
  end.

(** The element of [field_params] that line 98 builds for [parm]. *)
Definition entry_of (parm : Parm) : Entry := mkEntry parm (parm_str parm).

(** A parameter that lines 58-66 let through. *)
Definition kept (field_class : string) (parm : Parm) : bool :=
  negb (unwanted field_class parm) && negb (self_or_var parm).

Definition has_var_keyword (c : ClassDesc) : Prop :=
  ∃ parm, declares c parm ∧ kind parm = VAR_KEYWORD.

(** A parameter that gets as far as line 74: none of the three tests of
    lines 58-72 drops it, [st] being the variables of the loop when its
    turn comes. *)
Definition reaches_encoder (field_class : string) (depth : nat) (st : MergeState)
    (parm : Parm) : bool :=
  negb (unwanted field_class parm) && negb (self_or_var parm)
  && negb (ordering_skip depth st parm).

(** The variables of the loop over [param_classes] when the turn of its
    element number [i] comes. *)
Definition state_before_class (field : PyClass) (UUIDMixIn : ClassDesc) (i : nat)
  : MergeState :=
  fold_left (visit (cls_name (cls field))) (take i (param_classes field UUIDMixIn))
    init_state.

(** The variables when, in the turn of that element, the parameter loop
    comes to the parameter number [j]. *)
Definition state_at (field : PyClass) (UUIDMixIn : ClassDesc) (i j : nat) : MergeState :=
  match param_classes field UUIDMixIn !! i with
  | Some (depth, c) =>
      (fold_left (process_parm (cls_name (cls field)) depth) (take j (parameters_of c))
         (with_skip_depth 0 (state_before_class field UUIDMixIn i), false)).1
  | None => state_before_class field UUIDMixIn i
  end.

(** Values lines 78-81 have no text for. *)
Definition unknown_annotation (v : PyValue) : bool :=
  bool_decide (v <> Py_empty) && negb (is_literal v) && negb (bool_decide (v = PyUUID)).
(** Values lines 89-92 have no text for. *)
Definition unknown_default (v : PyValue) : bool :=
  bool_decide (v <> Py_empty) && negb (is_literal v)
  && negb (bool_decide (v = PyFieldsEmpty)).

Definition annotation_error (parm : Parm) : string :=
  "Error: parameter " +:+ name parm +:+ " annotation is of unknown type "
  +:+ py_str (annotation parm) +:+ ".".
Definition default_error (parm : Parm) : string :=
  "Error: parameter " +:+ name parm +:+ " default is of unknown type "
  +:+ py_str (default parm) +:+ ".".

(** The text of the parameter has no default part: none is declared, or
    lines 89-94 have no text for the one that is. *)
Definition bare (parm : Parm) : bool := String.eqb (encode_default parm).1 "".

(** No parameter whose text has no default part stands behind one whose
    text has: what Python asks of a parameter list that, like the emitted
    one, has neither [/] nor [*] in it. *)
Fixpoint text_ordered (parms : list Parm) : bool :=
  match parms with
  | [] => true
  | p :: rest => (bare p || forallb (fun q => negb (bare q)) rest) && text_ordered rest
  end.

(** [needle in haystack] *)
Fixpoint is_infix (needle haystack : string) : bool :=
  String.prefix needle haystack
  || match haystack with
     | "" => false
     | String _ t => is_infix needle t
     end.

(** ** The state the loop keeps *)

(** [field_params_names] holds the names of [field_params], no name occurs
    twice, and every element is the text of a parameter that is neither
    [self] nor variadic. *)
Record consistent (st : MergeState) : Prop := {
  names_agree : forall n, n ∈ field_params_names st <-> n ∈ entry_name <$> field_params st;
  names_nodup : NoDup (entry_name <$> field_params st);
  entries_plain :
    Forall (fun e => self_or_var (e_parm e) = false /\ e_str e = parm_str (e_parm e))
           (field_params st)
}.

(** The parameters of the target that lines 58-66 let through are in
    order as they are written. *)
Definition own_text_ordered (field : PyClass) : bool :=
  text_ordered (List.filter (kept (cls_name (cls field))) (parameters_of (cls field))).




(** ** The claims as the specification words them *)



Definition without_default (parm : Parm) : Parm :=
  mkParm (name parm) (kind parm) (annotation parm) Py_empty.

(** C3: the text of a parameter with an unknown default shows something in
    the place of the value. *)
Definition placeholder_for_unknown_default : Prop :=
  forall parm, unknown_default (default parm) = true ->
               parm_str parm <> parm_str (without_default parm).

(** C4: when two classes of [field_list] have one name, no class text is
    written. *)
Definition name_collision_abort (fields_dict relations_dict : list (string * PyObj))
    (UUIDMixIn : ClassDesc) : Prop :=
  ~ NoDup ((fun f => cls_name (cls f)) <$> field_list fields_dict relations_dict) ->
  forall f, f ∈ field_list fields_dict relations_dict ->
    (generate_class fields_dict.*1 UUIDMixIn f).1
      ∉ output (handle fields_dict relations_dict UUIDMixIn).



(** ** Sample hierarchies *)

Module Sample.

Definition positional (n : string) : Parm := mkParm n POSITIONAL_OR_KEYWORD Py_empty Py_empty.
Definition keyword (n : string) (d : PyValue) : Parm :=
  mkParm n POSITIONAL_OR_KEYWORD Py_empty d.
Definition self : Parm := positional "self".
Definition var_keyword (n : string) : Parm := mkParm n VAR_KEYWORD Py_empty Py_empty.
Definition var_positional (n : string) : Parm := mkParm n VAR_POSITIONAL Py_empty Py_empty.

(** A mix-in in the shape of [dynamicforms.mixins.UUIDMixIn]:
    [def __init__(self, *args, uuid: UUID = None, **kwds)] *)
Definition UUIDMixIn : ClassDesc :=
  mkClass "dynamicforms.mixins" "UUIDMixIn"
    (Some [self; var_positional "args"; mkParm "uuid" KEYWORD_ONLY PyUUID PyNone;
           var_keyword "kwds"]).

(** [object.__init__(self, /, *args, **kwargs)] *)
Definition object : ClassDesc :=
  mkClass "builtins" "object"
    (Some [mkParm "self" POSITIONAL_ONLY Py_empty Py_empty; var_positional "args";
           var_keyword "kwargs"]).

(** [class Field: def __init__(self, choices=None)] in the place of
    [rest_framework.fields.Field] *)
Definition Root : ClassDesc :=
  mkClass "rest_framework.fields" "Field" (Some [self; keyword "choices" PyNone]).

(** [class Base(Field): def __init__(self, **kwargs)] *)
Definition Base : PyClass :=
  mkPyClass (mkClass "rest_framework.fields" "Base" (Some [self; var_keyword "kwargs"]))
            [Root; object].

(** A mix-in [M] with [__init__(self, id=None, max_length=1)] and a class
    [class Plain: def __init__(self, max_length=None)]. *)
Definition M : ClassDesc :=
  mkClass "example" "M" (Some [self; keyword "id" PyNone; keyword "max_length" (PyInt 1)]).
Definition Plain : PyClass :=
  mkPyClass (mkClass "example" "Plain" (Some [self; keyword "max_length" PyNone])) [object].

(** [class Leaf(Mid): def __init__(self, a=None, **kwargs)] over
    [class Mid(Field): def __init__(self, b=None)] over [Root]: the class
    at depth 0 takes [**kwargs], the class at depth 1 does not. *)
Definition Mid : ClassDesc :=
  mkClass "example" "Mid" (Some [self; keyword "b" PyNone]).
Definition Leaf : PyClass :=
  mkPyClass (mkClass "example" "LeafField"
               (Some [self; keyword "a" PyNone; var_keyword "kwargs"]))
            [Mid; Root; object].

(** [class NoKw(Field): def __init__(self, a=None)] over a root
    [class Field: def __init__(self, uuid=5)] *)
Definition NoKw : PyClass :=
  mkPyClass (mkClass "example" "NoKwField" (Some [self; keyword "a" PyNone]))
            [mkClass "rest_framework.fields" "Field" (Some [self; keyword "uuid" (PyInt 5)]);
             object].

(** [class Gauge(Field): def __init__(self, unit=object(), **kwargs)] *)
Definition unit_parm : Parm :=
  mkParm "unit" POSITIONAL_OR_KEYWORD Py_empty (PyObject "<object object at 0x7f3a5c1d2e90>").
Definition Gauge : PyClass :=
  mkPyClass (mkClass "rest_framework.fields" "GaugeField"
               (Some [self; unit_parm; var_keyword "kwargs"]))
            [Root; object].

(** [class Typed(Field): def __init__(self, **kwargs)] over a root
    [class Field: def __init__(self, typed: Decimal)]: a positional
    parameter without default at depth 1, met while [field_params] is
    empty. *)
Definition typed_parm : Parm :=
  mkParm "typed" POSITIONAL_OR_KEYWORD (PyObject "<class 'decimal.Decimal'>") Py_empty.
Definition TypedRoot : ClassDesc :=
  mkClass "rest_framework.fields" "Field" (Some [self; typed_parm]).
Definition Typed : PyClass :=
  mkPyClass (mkClass "rest_framework.fields" "TypedField" (Some [self; var_keyword "kwargs"]))
            [TypedRoot; object].
Definition typed_dict : list (string * PyObj) :=
  [("Field", ObjClass (mkPyClass TypedRoot [object])); ("TypedField", ObjClass Typed)].

(** [fields.__dict__] with one class bound to two names. *)
Definition fields_dict : list (string * PyObj) :=
  [("Field", ObjClass (mkPyClass Root [object]));
   ("empty", ObjOther);
   ("GaugeField", ObjClass Gauge);
   ("MeterField", ObjClass Gauge)].

(** [class Pair(Field): def __init__(self, **kwargs)] over a root
    [class Field: def __init__(self, first, second)] *)
Definition PairRoot : ClassDesc :=
  mkClass "rest_framework.fields" "Field" (Some [self; positional "first"; positional "second"]).
Definition Pair : PyClass :=
  mkPyClass (mkClass "rest_framework.fields" "PairField" (Some [self; var_keyword "kwargs"]))
            [PairRoot; object].


(** [class KwOnly(Field): def __init__(self, a=None, *, b, **kwargs)] *)
Definition KwOnly : PyClass :=
  mkPyClass (mkClass "rest_framework.fields" "KwOnlyField"
               (Some [self; keyword "a" PyNone; mkParm "b" KEYWORD_ONLY Py_empty Py_empty;
                      var_keyword "kwargs"]))
            [Root; object].


(** [class Tagged(Field): def __init__(self, kw=None, kwarg_name=None, **kwargs)] *)
Definition Tagged : PyClass :=
  mkPyClass (mkClass "rest_framework.fields" "TaggedField"
               (Some [self; keyword "kw" PyNone; keyword "kwarg_name" PyNone;
                      var_keyword "kwargs"]))
            [Root; object].

(** [class Sep(Field): def __init__(self, sep=':_', **kwargs)] *)
Definition Sep : PyClass :=
  mkPyClass (mkClass "rest_framework.fields" "SepField"
               (Some [self; keyword "sep" (PyStr ":_"); var_keyword "kwargs"]))
            [Root; object].

(** [class Named(Field): def __init__(self, kwarg_name=None, **kwargs)] *)
Definition Named : PyClass :=
  mkPyClass (mkClass "rest_framework.fields" "NamedField"
               (Some [self; keyword "kwarg_name" PyNone; var_keyword "kwargs"]))
            [Root; object].

(** The keyword arguments of the call
    [NamedField(kwarg_name='title', label='x')] *)
Definition named_call : gmap string PyValue :=
  list_to_map [("kwarg_name", PyStr "title"); ("label", PyStr "x")].

(** A class whose constructor has a default with a space in it, late enough
    in the signature for the line to end there. *)
Definition Wide : PyClass :=
  mkPyClass (mkClass "rest_framework.fields" "WideField"
               (Some [self; keyword "read_only" (PyBool false);
                      keyword "write_only" (PyBool false); keyword "required" PyNone;
                      keyword "source" PyNone; keyword "label" PyNone;
                      keyword "help_text" (PyStr "shown under the input of the form");
                      var_keyword "kwargs"]))
            [mkClass "rest_framework.fields" "Field" (Some [self]); object].

(** [class BooleanField(Field): def __init__(self, **kwargs)] over a root
    [class Field: def __init__(self, read_only=False, allow_null=False)] *)
Definition NullableRoot : ClassDesc :=
  mkClass "rest_framework.fields" "Field"
    (Some [self; keyword "read_only" (PyBool false); keyword "allow_null" (PyBool false)]).
Definition Boolean : PyClass :=
  mkPyClass (mkClass "rest_framework.fields" "BooleanField" (Some [self; var_keyword "kwargs"]))
            [NullableRoot; object].

(** [fields.__dict__] with classes whose annotations and defaults are all
    recognised. *)
Definition quiet_dict : list (string * PyObj) :=
  [("Field", ObjClass (mkPyClass Root [object]));
   ("Base", ObjClass Base);
   ("BooleanField", ObjClass Boolean)].

End Sample.

(** ** Vocabulary of the further properties *)

(** Every annotation and default of the constructors is one the encoder
    has a text for. *)
Definition recognised (parm : Parm) : bool :=
  negb (unknown_annotation (annotation parm)) && negb (unknown_default (default parm)).

Definition all_recognised (classes : list ClassDesc) : bool :=
  forallb (fun c => match cls_init c with
                    | Some parameters => forallb recognised parameters
                    | None => true
                    end) classes.

(** [s.replace(' ', '')] *)
Fixpoint strip_spaces (s : string) : string :=
  match s with
  | "" => ""
  | String c t => if Ascii.eqb c " "%char then strip_spaces t else String c (strip_spaces t)
  end.

(** The parameter list before line 105. *)
Definition joined_params (st : MergeState) : string := join ", " (signature_strs st).

(** The parameter list is short enough for one line, and has neither the
    marker [:_] of line 105 nor a line break in it. *)
Definition fits_on_one_line (st : MergeState) : bool :=
  (String.length (joined_params st) <=? 103)%nat
  && negb (is_infix ":_" (joined_params st))
  && negb (contains_char "010"%char (joined_params st)).

(** [s.endswith(' ')] *)
Fixpoint ends_with_space (s : string) : bool :=
  match s with
  | "" => false
  | String c t =>
      match t with
      | "" => Ascii.eqb c " "%char
      | String _ _ => ends_with_space t
      end
  end.

(** ** Filtering of list views ([dynamicforms/viewsets.py], lines 150-199)

    Django's side is data: a model field is described by its name and by
    what the three [isinstance] tests of [filter_queryset_field] say of it,
    a queryset by the fields of its model and by the lookups
    [queryset.filter] has collected, in order. *)

Module Views.

Record ModelField : Set := mkField {
  field_name : string;
  is_text : bool;                (* isinstance(f, (models.CharField, models.TextField)) *)
  is_date : bool;                (* isinstance(f, (models.DateField, models.DateTimeField)) *)
  is_boolean : bool              (* isinstance(f, models.BooleanField) *)
}.

(** [datetime.datetime] *)
Record DateTime : Set := mkDateTime {
  year : nat; month : nat; day : nat;
  hour : nat; minute : nat; second : nat
}.

(** The value a lookup compares with. *)
Inductive Operand : Set :=
| OText (s : string)
| ODate (y m d : nat)            (* date_time.date() *)
| ODateTime (dt : DateTime)
| OBool (b : bool).

(** One keyword argument of [queryset.filter]. *)
Record Lookup : Set := mkLookup {
  keyword : string;
  operand : Operand
}.

Record QuerySet : Set := mkQuerySet {
  model_fields : list ModelField;      (* queryset.model._meta.get_fields() *)
  lookups : list Lookup
}.

(** [queryset.filter] with the one keyword argument [kw=v] *)
Definition qs_filter (queryset : QuerySet) (kw : string) (v : Operand) : QuerySet :=
  {| model_fields := model_fields queryset;
     lookups := lookups queryset ++ [mkLookup kw v] |}.

(** [model_meta.get_field(field)], [None] when no field has the name, which
    is when line 178 returns. *)
Definition get_field (queryset : QuerySet) (field : string) : option ModelField :=
  List.find (fun f => String.eqb (field_name f) field) (model_fields queryset).

Section Filtering.
(** [datetime.strptime(value, format)], [None] when it raises; the two
    formats of the Django settings. *)
Variable strptime : string -> string -> option DateTime.
Variables DATETIME_FORMAT DATE_FORMAT : string.

(** lines 183-189: the first format that parses the value *)
Fixpoint first_parse (value : string) (formats : list string) : option DateTime :=
  match formats with
  | [] => None
  | date_time_fmt :: rest =>
      match strptime value date_time_fmt with
      | Some date_time => Some date_time
      | None => first_parse value rest
      end
  end.

Definition parse_date_time (value : string) : option DateTime :=
  first_parse value [DATETIME_FORMAT; "%Y-%m-%dT%H:%M:%S"; DATE_FORMAT; "%Y-%m-%d"].

(** [ModelViewSet.filter_queryset_field], lines 163-199; the result of
    [date_time.replace] at line 192 is not used. *)
Definition filter_queryset_field (queryset : QuerySet) (field : string)
    (value : option string) : QuerySet :=
  match value with
  | None => queryset
  | Some v =>
      if String.eqb v "" then queryset
      else
        match get_field queryset field with
        | None => queryset
        | Some f =>
            if is_text f then qs_filter queryset (field +:+ "__icontains") (OText v)
            else if is_date f then
              match parse_date_time v with
              | None => queryset
              | Some date_time =>
                  if (hour date_time =? 0)%nat && (minute date_time =? 0)%nat
                     && (second date_time =? 0)%nat
                  then qs_filter queryset (field +:+ "__contains")
                         (ODate (year date_time) (month date_time) (day date_time))
                  else qs_filter queryset (field +:+ "__contains") (ODateTime date_time)
              end
            else
              qs_filter queryset field
                (if is_boolean f then OBool (String.eqb v "true") else OText v)
        end
  end.

(** [ModelViewSet.filter_queryset], lines 150-160; [query_params] is
    [self.request.query_params.items()] *)
Definition filter_queryset (queryset : QuerySet) (query_params : list (string * string))
  : QuerySet :=
  fold_left (fun res fv => filter_queryset_field res fv.1 (Some fv.2)) query_params queryset.

(** The cases in which [filter_queryset_field] returns at lines 173, 178
    or 191: no value, an empty value, no field of that name, or a date
    field and a value that none of the four formats parses. *)
Definition leaves_unfiltered (queryset : QuerySet) (field : string)
    (value : option string) : Prop :=
  value = None \/ value = Some ""
  \/ get_field queryset field = None
  \/ exists f v, value = Some v /\ get_field queryset field = Some f
                 /\ is_text f = false /\ is_date f = true
                 /\ parse_date_time v = None.

(** A query parameter that can filter: its value is not empty and the
    model has a field of its name. *)
Definition names_a_field (queryset : QuerySet) (fv : string * string) : bool :=
  negb (String.eqb fv.2 "")
  && match get_field queryset fv.1 with Some _ => true | None => false end.

End Filtering.

(** *** [NewMixin.retrieve], lines 40-51 *)

(** What a call ends in: a response, or an exception. *)
Inductive Raised : Set :=
| Http404
| KeyError (key : string)
| OtherError (what : string).

Inductive Outcome (R : Type) : Type :=
| Returned (response : R)
| Raise (e : Raised).
Arguments Returned {R} response.
Arguments Raise {R} e.

(** [super_retrieve] is what [super().retrieve(request, *args, **kwargs)]
    ends in, [new_record] what lines 47-49 end in; [kwargs] is
    [self.kwargs], the values captured from the URL. *)
Definition retrieve {R : Type} (super_retrieve : Outcome R)
    (lookup_url_kwarg : option string) (lookup_field : string)
    (kwargs : gmap string string) (new_record : Outcome R) : Outcome R :=
  match super_retrieve with
  | Raise Http404 =>
      let lookup_url_kwarg :=
        match lookup_url_kwarg with
        | Some k => if String.eqb k "" then lookup_field else k
        | None => lookup_field
        end in
      match kwargs !! lookup_url_kwarg with
      | None => Raise (KeyError lookup_url_kwarg)
      | Some captured =>
          let filter_kwargs : gmap string string := {[ lookup_field := captured ]} in
          if bool_decide (filter_kwargs !! "pk" = Some "new") then new_record
          else Raise Http404
      end
  | _ => super_retrieve
  end.

(** A model with a text, a date and a boolean field, and a [strptime]
    that knows one date. *)
Definition sample_model : QuerySet :=
  mkQuerySet [mkField "title" true false false; mkField "due" false true false;
              mkField "done" false false true] [].
Definition sample_strptime (value format : string) : option DateTime :=
  if String.eqb value "2019-03-01" && String.eqb format "%Y-%m-%d"
  then Some (mkDateTime 2019 3 1 0 0 0) else None.

End Views.

(** * Properties *)

(** Membership in a list that is known in full. *)
Ltac in_list :=
  match goal with
  | |- ?P => apply (bool_decide_unpack P); vm_compute; exact I
  end.

(** ** The loop over the parameters of one class *)

Section ParmLoop.
Variable field_class : string.
Variable depth : nat.

Lemma var_keyword_self_or_var parm :
  kind parm = VAR_KEYWORD -> self_or_var parm = true.
Proof.
  intros Hk. unfold self_or_var, is_var. rewrite Hk.
  rewrite (bool_decide_eq_true_2 (VAR_KEYWORD = VAR_KEYWORD)) by reflexivity.
  apply orb_true_r.
Qed.

Lemma process_parm_had_kwds st had parm :
  (process_parm field_class depth (st, had) parm).2
  = had || sets_had_kwds field_class parm.
Proof.
  unfold process_parm, sets_had_kwds.
  destruct (unwanted field_class parm); simpl.
  { now rewrite orb_false_r. }
  destruct (self_or_var parm) eqn:Hsv; simpl; [reflexivity|].
  assert (bool_decide (kind parm = VAR_KEYWORD) = false) as ->.
  { apply bool_decide_eq_false. intros Hk.
    rewrite (var_keyword_self_or_var _ Hk) in Hsv. discriminate. }
  rewrite orb_false_r.
  destruct (ordering_skip depth st parm); [reflexivity|].
  now destruct (bool_decide (name parm ∈ field_params_names st)).
Qed.

Lemma process_parm_skip_depth st had parm :
  skip_depth (process_parm field_class depth (st, had) parm).1 = skip_depth st.
Proof.
  unfold process_parm.
  destruct (unwanted field_class parm); [reflexivity|].
  destruct (self_or_var parm); [reflexivity|].
  destruct (ordering_skip depth st parm); [reflexivity|].
  now destruct (bool_decide (name parm ∈ field_params_names st)).
Qed.

Lemma parm_loop_had_kwds parameters : forall st had,
  (fold_left (process_parm field_class depth) parameters (st, had)).2
  = had || existsb (sets_had_kwds field_class) parameters.
Proof.
  induction parameters as [|parm rest IH]; intros st had; cbn [fold_left existsb].
  - now rewrite orb_false_r.
  - destruct (process_parm field_class depth (st, had) parm) as [st' had'] eqn:Hstep.
    rewrite IH. pose proof (process_parm_had_kwds st had parm) as Hh.
    rewrite Hstep in Hh. simpl in Hh. rewrite Hh. now rewrite orb_assoc.
Qed.

Lemma parm_loop_skip_depth parameters : forall st had,
  skip_depth (fold_left (process_parm field_class depth) parameters (st, had)).1
  = skip_depth st.
Proof.
  induction parameters as [|parm rest IH]; intros st had; cbn [fold_left]; [reflexivity|].
  destruct (process_parm field_class depth (st, had) parm) as [st' had'] eqn:Hstep.
  rewrite IH. pose proof (process_parm_skip_depth st had parm) as Hs.
  now rewrite Hstep in Hs.
Qed.
End ParmLoop.

(** ** Which classes the loop over [param_classes] lets through *)

Lemma process_class_skip_depth field_class depth c st :
  skip_depth (process_class field_class depth c st)
  = if class_had_kwds field_class c then (depth + 1)%nat else 0%nat.
Proof.
  unfold process_class, class_had_kwds.
  destruct (cls_init c) as [parameters|]; [|reflexivity].
  pose proof (parm_loop_had_kwds field_class depth parameters (with_skip_depth 0 st) false) as Hh.
  pose proof (parm_loop_skip_depth field_class depth parameters (with_skip_depth 0 st) false) as Hs.
  destruct (fold_left _ parameters _) as [st' had]. simpl in *. subst had.
  now destruct (existsb _ parameters).
Qed.

Lemma loop_skips field_class classes : forall depth st,
  (skip_depth st < depth)%nat ->
  fold_left (visit field_class) (enumerate_until_Field depth classes) st = st.
Proof.
  induction classes as [|c rest IH]; intros depth st Hlt; simpl; [reflexivity|].
  assert ((skip_depth st <? depth)%nat = true) as -> by now apply Nat.ltb_lt.
  destruct (is_Field c); [reflexivity|]. apply IH. lia.
Qed.

Lemma loop_visits field_class classes : forall depth st,
  skip_depth st = depth ->
  fold_left (visit field_class) (enumerate_until_Field depth classes) st
  = fold_left (process field_class)
      (visited field_class (enumerate_until_Field depth classes)) st.
Proof.
  induction classes as [|c rest IH]; intros depth st Hd; simpl; [reflexivity|].
  assert ((skip_depth st <? depth)%nat = false) as -> by (apply Nat.ltb_ge; lia).
  unfold process at 2. simpl.
  pose proof (process_class_skip_depth field_class depth c st) as Hs.
  destruct (class_had_kwds field_class c).
  - destruct (is_Field c); [reflexivity|]. apply IH. lia.
  - destruct (is_Field c); [reflexivity|]. simpl. apply loop_skips. lia.
Qed.

Lemma merge_chain_visited field :
  merge_chain field
  = fold_left (process (cls_name (cls field)))
      (visited (cls_name (cls field)) (chain field)) init_state.
Proof. unfold merge_chain, chain. now apply loop_visits. Qed.

Lemma merge_mixin_last field UUIDMixIn :
  merge field UUIDMixIn
  = process_class (cls_name (cls field)) 0 UUIDMixIn (merge_chain field).
Proof.
  unfold merge, param_classes, merge_chain, chain.
  rewrite fold_left_app. reflexivity.
Qed.

(** ** What the loop keeps true of its variables *)

Lemma consistent_init : consistent init_state.
Proof.
  split; simpl.
  - intros n. split; intros H; [set_solver | inversion H].
  - constructor.
  - constructor.
Qed.

Lemma consistent_with_skip_depth d st : consistent st -> consistent (with_skip_depth d st).
Proof. intros [H1 H2 H3]. split; assumption. Qed.

(** One turn of the parameter loop either leaves [field_params] alone or
    appends the text of [parm]. *)
Lemma process_parm_appends field_class depth st had parm :
  let st' := (process_parm field_class depth (st, had) parm).1 in
  (field_params st' = field_params st /\ field_params_names st' = field_params_names st)
  \/ (field_params st' = field_params st ++ [mkEntry parm (parm_str parm)]
      /\ field_params_names st' = {[name parm]} ∪ field_params_names st
      /\ unwanted field_class parm = false
      /\ self_or_var parm = false
      /\ ordering_skip depth st parm = false
      /\ name parm ∉ field_params_names st).
Proof.
  unfold process_parm.
  destruct (unwanted field_class parm) eqn:Hu; [now left|].
  destruct (self_or_var parm) eqn:Hsv; [now left|].
  destruct (ordering_skip depth st parm) eqn:Ho; [now left|].
  destruct (bool_decide (name parm ∈ field_params_names st)) eqn:Hin; simpl.
  - now left.
  - right. apply bool_decide_eq_false in Hin. repeat split; assumption.
Qed.

Lemma process_parm_consistent field_class depth st had parm :
  consistent st -> consistent (process_parm field_class depth (st, had) parm).1.
Proof.
  intros [Hn Hd Hp].
  destruct (process_parm_appends field_class depth st had parm)
    as [[Hf Hs]|(Hf & Hs & Hu & Hsv & Ho & Hnew)].
  - split; rewrite ?Hf, ?Hs; assumption.
  - split; rewrite ?Hf, ?Hs.
    + intros n. rewrite fmap_app, elem_of_app, elem_of_union, elem_of_singleton, Hn.
      simpl. rewrite list_elem_of_singleton. unfold entry_name at 2. simpl. tauto.
    + rewrite fmap_app. apply NoDup_app. split; [assumption|]. split.
      * intros n Hin Hin'. simpl in Hin'. apply list_elem_of_singleton in Hin'.
        subst n. apply Hnew, Hn, Hin.
      * simpl. apply NoDup_singleton.
    + apply Forall_app. split; [assumption|]. constructor; [|constructor].
      simpl. split; [assumption|reflexivity].
Qed.

Lemma parm_loop_consistent field_class depth parameters : forall st had,
  consistent st ->
  consistent (fold_left (process_parm field_class depth) parameters (st, had)).1.
Proof.
  induction parameters as [|parm rest IH]; intros st had Hc; cbn [fold_left]; [assumption|].
  pose proof (process_parm_consistent field_class depth st had parm Hc) as Hc'.
  destruct (process_parm field_class depth (st, had) parm) as [st' had']. now apply IH.
Qed.

Lemma process_class_consistent field_class depth c st :
  consistent st -> consistent (process_class field_class depth c st).
Proof.
  intros Hc. unfold process_class.
  destruct (cls_init c) as [parameters|]; [|now apply consistent_with_skip_depth].
  pose proof (parm_loop_consistent field_class depth parameters (with_skip_depth 0 st) false
                (consistent_with_skip_depth 0 st Hc)) as Hc'.
  destruct (fold_left _ parameters _) as [st' had]. simpl in Hc'.
  destruct had; [now apply consistent_with_skip_depth | assumption].
Qed.

Lemma process_chain_consistent field_class classes : forall st,
  consistent st -> consistent (fold_left (process field_class) classes st).
Proof.
  induction classes as [|[d c] rest IH]; intros st Hc; simpl; [assumption|].
  apply IH. now apply process_class_consistent.
Qed.

Lemma merge_chain_consistent field : consistent (merge_chain field).
Proof. rewrite merge_chain_visited. apply process_chain_consistent, consistent_init. Qed.

Lemma merge_consistent field UUIDMixIn : consistent (merge field UUIDMixIn).
Proof. rewrite merge_mixin_last. apply process_class_consistent, merge_chain_consistent. Qed.

(** ** Where the elements of [field_params] come from *)

Lemma parm_loop_extends field_class depth parameters : forall st had,
  consistent st ->
  exists tail,
    field_params (fold_left (process_parm field_class depth) parameters (st, had)).1
    = field_params st ++ tail
    /\ Forall (fun e => e_parm e ∈ parameters
                        /\ entry_name e ∉ entry_name <$> field_params st) tail.
Proof.
  induction parameters as [|parm rest IH]; intros st had Hc; cbn [fold_left].
  { exists []. split; [now rewrite app_nil_r | constructor]. }
  pose proof (process_parm_consistent field_class depth st had parm Hc) as Hc'.
  destruct (process_parm_appends field_class depth st had parm)
    as [[Hf Hs]|(Hf & Hs & Hu & Hsv & Ho & Hnew)];
    destruct (process_parm field_class depth (st, had) parm) as [st' had'];
    simpl in Hf, Hs, Hc'; destruct (IH st' had' Hc') as (tail & Htail & Hall).
  - exists tail. rewrite Htail, Hf. split; [reflexivity|].
    eapply Forall_impl; [exact Hall|]. intros e [He Hn]. rewrite Hf in Hn.
    split; [now apply elem_of_cons; right | assumption].
  - exists (mkEntry parm (parm_str parm) :: tail). rewrite Htail, Hf, <- app_assoc.
    split; [reflexivity|]. constructor.
    + split; [apply elem_of_cons; now left|].
      intros Hin. apply Hnew. now apply (names_agree st Hc).
    + eapply Forall_impl; [exact Hall|]. intros e [He Hn]. rewrite Hf in Hn.
      split; [now apply elem_of_cons; right|].
      intros Hin. apply Hn. rewrite fmap_app, elem_of_app. now left.
Qed.

Lemma process_class_extends field_class depth c st :
  consistent st ->
  exists tail,
    field_params (process_class field_class depth c st) = field_params st ++ tail
    /\ Forall (fun e => declares c (e_parm e)
                        /\ entry_name e ∉ entry_name <$> field_params st) tail.
Proof.
  intros Hc. unfold process_class.
  destruct (cls_init c) as [parameters|] eqn:Hinit.
  - destruct (parm_loop_extends field_class depth parameters (with_skip_depth 0 st) false
                (consistent_with_skip_depth 0 st Hc)) as (tail & Htail & Hall).
    destruct (fold_left _ parameters _) as [st' had]. simpl in Htail.
    exists tail. split.
    + now destruct had.
    + eapply Forall_impl; [exact Hall|]. intros e [He Hn]. split; [|exact Hn].
      exists parameters. now split.
  - exists []. split; [now rewrite app_nil_r | constructor].
Qed.

Lemma process_chain_origin field_class classes : forall st e,
  consistent st ->
  e ∈ field_params (fold_left (process field_class) classes st) ->
  e ∈ field_params st \/ exists dc, dc ∈ classes /\ declares dc.2 (e_parm e).
Proof.
  induction classes as [|dc rest IH]; intros st e Hc He; simpl in He; [now left|].
  apply IH in He; [|now apply process_class_consistent].
  destruct He as [He|(dc' & Hin & Hdecl)].
  - unfold process in He.
    destruct (process_class_extends field_class dc.1 dc.2 st Hc) as (tail & Htail & Hall).
    rewrite Htail in He. apply elem_of_app in He as [He|He]; [now left|].
    right. exists dc. split; [apply elem_of_cons; now left|].
    rewrite Forall_forall in Hall. now apply Hall.
  - right. exists dc'. split; [apply elem_of_cons; now right | assumption].
Qed.

(** ** What a class that is not skipped adds *)

Lemma nodup_fmap_unique {A B} (f : A -> B) (l : list A) x y :
  NoDup (f <$> l) -> x ∈ l -> y ∈ l -> f x = f y -> x = y.
Proof.
  induction l as [|a l IH]; intros Hnd Hx Hy Heq; [inversion Hx|].
  rewrite fmap_cons in Hnd. apply NoDup_cons in Hnd as [Ha Hnd].
  apply elem_of_cons in Hx as [->|Hx]; apply elem_of_cons in Hy as [->|Hy].
  - reflexivity.
  - exfalso. apply Ha. rewrite Heq. apply list_elem_of_fmap. now exists y.
  - exfalso. apply Ha. rewrite <- Heq. apply list_elem_of_fmap. now exists x.
  - now apply IH.
Qed.











(** ** Which chain entries are visited *)

Lemma enumerate_depth_ge classes : forall depth d c,
  (d, c) ∈ enumerate_until_Field depth classes -> (depth <= d)%nat.
Proof.
  induction classes as [|c0 rest IH]; intros depth d c Hin; simpl in Hin.
  { inversion Hin. }
  apply elem_of_cons in Hin as [Heq|Hin]; [injection Heq; lia|].
  destruct (is_Field c0); [inversion Hin|]. apply IH in Hin. lia.
Qed.

Lemma visited_sublist field_class classes : forall dc,
  dc ∈ visited field_class classes -> dc ∈ classes.
Proof.
  induction classes as [|dc0 rest IH]; intros dc Hin; simpl in Hin; [inversion Hin|].
  apply elem_of_cons in Hin as [->|Hin]; [apply elem_of_cons; now left|].
  destruct (class_had_kwds field_class dc0.2); [|inversion Hin].
  apply elem_of_cons. right. now apply IH.
Qed.

Lemma visited_after_had_kwds field_class classes : forall depth d c,
  (d, c) ∈ visited field_class (enumerate_until_Field depth classes) ->
  forall j c', (j, c') ∈ enumerate_until_Field depth classes -> (j < d)%nat ->
               class_had_kwds field_class c' = true.
Proof.
  induction classes as [|c0 rest IH]; intros depth d c Hin j c' Hj Hlt; simpl in Hin, Hj.
  { inversion Hin. }
  apply elem_of_cons in Hin as [Heq|Hin].
  - injection Heq as -> ->.
    apply elem_of_cons in Hj as [Heq|Hj]; [injection Heq; lia|].
    destruct (is_Field c0); [inversion Hj|]. apply enumerate_depth_ge in Hj. lia.
  - destruct (class_had_kwds field_class c0) eqn:Hk; [|inversion Hin].
    apply elem_of_cons in Hj as [Heq|Hj]; [now injection Heq as -> ->|].
    destruct (is_Field c0); [inversion Hin|]. now apply (IH (S depth) d c Hin j c').
Qed.



Lemma class_had_kwds_var_keyword field_class c :
  class_had_kwds field_class c = true -> has_var_keyword c.
Proof.
  unfold class_had_kwds, has_var_keyword, declares.
  destruct (cls_init c) as [parameters|]; [|discriminate].
  intros H. apply existsb_exists in H as (parm & Hin & Hs).
  unfold sets_had_kwds in Hs. apply andb_true_iff in Hs as [_ Hk].
  apply bool_decide_eq_true in Hk.
  exists parm. split; [|assumption]. exists parameters. split; [reflexivity|].
  now apply list_elem_of_In.
Qed.

(** ** The claims about the order of visits *)

Lemma merge_origin field UUIDMixIn e :
  e ∈ field_params (merge field UUIDMixIn) ->
  (exists d c, (d, c) ∈ visited (cls_name (cls field)) (chain field)
               /\ declares c (e_parm e))
  \/ declares UUIDMixIn (e_parm e).
Proof.
  rewrite merge_mixin_last. intros He.
  destruct (process_class_extends (cls_name (cls field)) 0 UUIDMixIn (merge_chain field)
              (merge_chain_consistent field)) as (tail & Htail & Hall).
  rewrite Htail in He. apply elem_of_app in He as [He|He].
  - left. rewrite merge_chain_visited in He.
    apply process_chain_origin in He; [|apply consistent_init].
    destruct He as [He|([d c] & Hin & Hdecl)]; [inversion He|].
    now exists d, c.
  - right. rewrite Forall_forall in Hall. now apply Hall.
Qed.

(** C10. A class of the chain adds parameters only when every class before
    it in the chain has a var-keyword parameter; once a visited class has
    none, every deeper class is left out; the mix-in, last in
    [param_classes] with depth 0, is processed in every case. *)
Theorem ancestor_processing_gate (field : PyClass) (UUIDMixIn : ClassDesc) :
  (forall e, e ∈ field_params (merge field UUIDMixIn) ->
     (exists d c, (d, c) ∈ visited (cls_name (cls field)) (chain field)
                  /\ declares c (e_parm e))
     \/ declares UUIDMixIn (e_parm e))
  /\ (forall d c, (d, c) ∈ visited (cls_name (cls field)) (chain field) ->
        (d, c) ∈ chain field
        /\ forall j c', (j, c') ∈ chain field -> (j < d)%nat -> has_var_keyword c')
  /\ (forall j c', (j, c') ∈ visited (cls_name (cls field)) (chain field) ->
        ~ has_var_keyword c' ->
        forall d c, (d, c) ∈ chain field -> (j < d)%nat ->
                    (d, c) ∉ visited (cls_name (cls field)) (chain field))
  /\ merge field UUIDMixIn
     = process_class (cls_name (cls field)) 0 UUIDMixIn (merge_chain field)
  /\ merge_chain field
     = fold_left (process (cls_name (cls field)))
         (visited (cls_name (cls field)) (chain field)) init_state.
Proof.
  split; [intros e; apply merge_origin|].
  split.
  { intros d c Hv. split; [now apply visited_sublist in Hv|].
    intros j c' Hj Hlt. eapply class_had_kwds_var_keyword.
    exact (visited_after_had_kwds _ _ _ _ _ Hv j c' Hj Hlt). }
  split.
  { intros j c' Hv Hno d c Hin Hlt Hv'. apply Hno.
    eapply class_had_kwds_var_keyword.
    apply visited_sublist in Hv.
    exact (visited_after_had_kwds _ _ _ _ _ Hv' j c' Hv Hlt). }
  split; [apply merge_mixin_last | apply merge_chain_visited].
Qed.



(** ** The mix-in's turn *)





(** C9. Whatever the hierarchy, the signature starts with [self] and ends
    with [**kw], and [**kw] is its only var-keyword parameter. *)
Theorem signature_shape (field : PyClass) (UUIDMixIn : ClassDesc) :
  head (signature_strs (merge field UUIDMixIn)) = Some "self"
  /\ last (signature_strs (merge field UUIDMixIn)) = Some "**kw"
  /\ exists middle,
       signature (merge field UUIDMixIn) = self_entry :: middle ++ [kw_entry]
       /\ Forall (fun e => kind (e_parm e) <> VAR_KEYWORD) middle.
Proof.
  unfold signature_strs, signature. split; [reflexivity|]. split.
  - rewrite fmap_cons, fmap_app. simpl.
    rewrite last_cons, last_snoc. reflexivity.
  - exists (field_params (merge field UUIDMixIn)). split; [reflexivity|].
    eapply Forall_impl; [exact (entries_plain _ (merge_consistent field UUIDMixIn))|].
    intros e [Hsv _] Hk. simpl in Hsv.
    rewrite (var_keyword_self_or_var _ Hk) in Hsv. discriminate.
Qed.





(** A name the chain declares in a class that is not visited comes from
    the mix-in: [NoKw] takes no [**kwargs], its root's [uuid=5] is never
    looked at, and the signature has the mix-in's [uuid]. *)
Example unvisited_name_from_mixin :
  (1%nat, mkClass "rest_framework.fields" "Field"
            (Some [Sample.self; Sample.keyword "uuid" (PyInt 5)])) ∈ chain Sample.NoKw
  /\ signature_strs (merge Sample.NoKw Sample.UUIDMixIn)
     = ["self"; "a=None"; "uuid: UUID=None"; "**kw"].
Proof. split; [in_list | vm_compute; reflexivity]. Qed.

Example leaf_signature :
  signature_strs (merge Sample.Leaf Sample.UUIDMixIn)
  = ["self"; "a=None"; "b=None"; "uuid: UUID=None"; "**kw"].
Proof. vm_compute. reflexivity. Qed.

Example plain_signature :
  signature_strs (merge Sample.Plain Sample.M)
  = ["self"; "max_length=None"; "id=None"; "**kw"].
Proof. vm_compute. reflexivity. Qed.

Example base_signature :
  signature_strs (merge Sample.Base Sample.UUIDMixIn)
  = ["self"; "choices=None"; "uuid: UUID=None"; "**kw"].
Proof. vm_compute. reflexivity. Qed.

(** ** What is printed *)

Lemma process_parm_reaches field_class depth st had parm :
  reaches_encoder field_class depth st parm = true ->
  printed (process_parm field_class depth (st, had) parm).1
  = printed st ++ parm_errors parm.
Proof.
  unfold reaches_encoder, process_parm. intros H.
  apply andb_true_iff in H as [H Ho]. apply andb_true_iff in H as [Hu Hsv].
  apply negb_true_iff in Hu, Hsv, Ho. rewrite Hu, Hsv, Ho.
  now destruct (bool_decide (name parm ∈ field_params_names st)).
Qed.

Lemma process_parm_printed_keeps field_class depth st had parm msg :
  msg ∈ printed st -> msg ∈ printed (process_parm field_class depth (st, had) parm).1.
Proof.
  intros Hin. unfold process_parm.
  destruct (unwanted field_class parm); [assumption|].
  destruct (self_or_var parm); [assumption|].
  destruct (ordering_skip depth st parm); [assumption|].
  destruct (bool_decide (name parm ∈ field_params_names st)); simpl;
    apply elem_of_app; now left.
Qed.

Lemma parm_loop_printed_keeps field_class depth parameters : forall st had msg,
  msg ∈ printed st ->
  msg ∈ printed (fold_left (process_parm field_class depth) parameters (st, had)).1.
Proof.
  induction parameters as [|parm rest IH]; intros st had msg Hin; cbn [fold_left];
    [assumption|].
  pose proof (process_parm_printed_keeps field_class depth st had parm msg Hin) as Hstep.
  destruct (process_parm field_class depth (st, had) parm) as [st' had']. now apply IH.
Qed.

Lemma loop_printed_keeps field_class classes : forall st msg,
  msg ∈ printed st -> msg ∈ printed (fold_left (visit field_class) classes st).
Proof.
  induction classes as [|[d c] rest IH]; intros st msg Hin; cbn [fold_left]; [assumption|].
  apply IH. unfold visit. destruct (skip_depth st <? d)%nat; [assumption|].
  unfold process_class. destruct (cls_init c) as [parameters|]; [|assumption].
  pose proof (parm_loop_printed_keeps field_class d parameters (with_skip_depth 0 st) false
                msg Hin) as Hloop.
  destruct (fold_left _ parameters _) as [st' had]. now destruct had.
Qed.

(** What the encoder prints for a parameter that reaches it is on standard
    output when the loop is done. *)
Lemma merge_printed field UUIDMixIn i j d c parm msg :
  param_classes field UUIDMixIn !! i = Some (d, c) ->
  (skip_depth (state_before_class field UUIDMixIn i) <? d)%nat = false ->
  parameters_of c !! j = Some parm ->
  reaches_encoder (cls_name (cls field)) d (state_at field UUIDMixIn i j) parm = true ->
  msg ∈ parm_errors parm ->
  msg ∈ printed (merge field UUIDMixIn).
Proof.
  intros Hi Hgate Hj Hreach Hmsg.
  unfold state_at in Hreach. rewrite Hi in Hreach.
  unfold merge. rewrite <- (take_drop_middle _ _ _ Hi), fold_left_app. cbn [fold_left].
  fold (state_before_class field UUIDMixIn i) in *.
  set (st := state_before_class field UUIDMixIn i) in *.
  apply loop_printed_keeps. unfold visit. rewrite Hgate.
  unfold process_class. unfold parameters_of in Hj, Hreach.
  destruct (cls_init c) as [parameters|]; [|inversion Hj].
  rewrite <- (take_drop_middle _ _ _ Hj), fold_left_app. cbn [fold_left].
  destruct (fold_left (process_parm (cls_name (cls field)) d) (take j parameters)
              (with_skip_depth 0 st, false)) as [stj hadj].
  cbn [fst] in Hreach.
  pose proof (process_parm_reaches (cls_name (cls field)) d stj hadj parm Hreach) as Hp.
  destruct (process_parm (cls_name (cls field)) d (stj, hadj) parm) as [st' had'].
  cbn [fst] in Hp.
  pose proof (parm_loop_printed_keeps (cls_name (cls field)) d (drop (S j) parameters)
                st' had' msg) as Hrest.
  destruct (fold_left _ (drop (S j) parameters) _) as [st'' had''].
  assert (msg ∈ printed st'') as Hin.
  { apply Hrest. rewrite Hp. apply elem_of_app. now right. }
  now destruct had''.
Qed.

(** ** The run as a whole *)

Lemma emit_loop fields_names UUIDMixIn classes : forall run,
  fold_left (emit fields_names UUIDMixIn) classes run
  = {| output := output run
         ++ ((fun f => (generate_class fields_names UUIDMixIn f).1) <$> classes);
       stdout := stdout run
         ++ mjoin ((fun f => (generate_class fields_names UUIDMixIn f).2) <$> classes) |}.
Proof.
  induction classes as [|f rest IH]; intros run.
  - simpl. rewrite !app_nil_r. now destruct run.
  - cbn [fold_left]. rewrite IH, !fmap_cons. unfold emit.
    destruct (generate_class fields_names UUIDMixIn f) as [block errors].
    cbn [output stdout fst snd]. f_equal; now rewrite <- app_assoc.
Qed.

Lemma handle_output fields_dict relations_dict UUIDMixIn :
  output (handle fields_dict relations_dict UUIDMixIn)
  = file_header
    ++ ((fun f => (generate_class fields_dict.*1 UUIDMixIn f).1)
          <$> field_list fields_dict relations_dict).
Proof. unfold handle. rewrite emit_loop. reflexivity. Qed.

Lemma handle_stdout fields_dict relations_dict UUIDMixIn :
  stdout (handle fields_dict relations_dict UUIDMixIn)
  = mjoin ((fun f => printed (merge f UUIDMixIn)) <$> field_list fields_dict relations_dict)
    ++ ["fields.py successfully generated"].
Proof. unfold handle. rewrite emit_loop. reflexivity. Qed.

(** ** The claims about diagnostics and about the run *)

Lemma unknown_annotation_text parm :
  unknown_annotation (annotation parm) = true ->
  encode_annotation parm = ("", [annotation_error parm]).
Proof.
  unfold unknown_annotation, encode_annotation, annotation_error. intros H.
  apply andb_true_iff in H as [H H3]. apply andb_true_iff in H as [H1 H2].
  apply negb_true_iff in H2, H3. now rewrite H1, H2, H3.
Qed.

Lemma unknown_default_text parm :
  unknown_default (default parm) = true ->
  encode_default parm = ("", [default_error parm]).
Proof.
  unfold unknown_default, encode_default, default_error. intros H.
  apply andb_true_iff in H as [H H3]. apply andb_true_iff in H as [H1 H2].
  apply negb_true_iff in H2, H3. now rewrite H1, H2, H3.
Qed.

Lemma printed_in_stdout fields_dict relations_dict UUIDMixIn f msg :
  f ∈ field_list fields_dict relations_dict ->
  msg ∈ printed (merge f UUIDMixIn) ->
  msg ∈ stdout (handle fields_dict relations_dict UUIDMixIn).
Proof.
  intros Hf Hmsg. rewrite handle_stdout. apply elem_of_app. left.
  apply list_elem_of_join. exists (printed (merge f UUIDMixIn)). split; [assumption|].
  apply list_elem_of_fmap. now exists f.
Qed.

(** C3, as the code has it.  A parameter of a class that line 50 lets
    through and that none of the tests of lines 58-72 drops when its turn
    comes has, for an annotation or a default outside the recognised set,
    its error line on standard output; its text carries nothing in the
    place of the value, no placeholder; the run goes on and the text of
    every class of [field_list] is in the file. *)
Theorem unsupported_literal_handling
    (fields_dict relations_dict : list (string * PyObj)) (UUIDMixIn : ClassDesc)
    (f : PyClass) (i j d : nat) (c : ClassDesc) (parm : Parm) :
  f ∈ field_list fields_dict relations_dict ->
  param_classes f UUIDMixIn !! i = Some (d, c) ->
  (skip_depth (state_before_class f UUIDMixIn i) <? d)%nat = false ->
  parameters_of c !! j = Some parm ->
  reaches_encoder (cls_name (cls f)) d (state_at f UUIDMixIn i j) parm = true ->
  (unknown_annotation (annotation parm) = true ->
     annotation_error parm ∈ stdout (handle fields_dict relations_dict UUIDMixIn)
     /\ (encode_annotation parm).1 = "")
  /\ (unknown_default (default parm) = true ->
     default_error parm ∈ stdout (handle fields_dict relations_dict UUIDMixIn)
     /\ (encode_default parm).1 = ""
     /\ parm_str parm = parm_str (without_default parm))
  /\ (forall g, g ∈ field_list fields_dict relations_dict ->
        (generate_class fields_dict.*1 UUIDMixIn g).1
          ∈ output (handle fields_dict relations_dict UUIDMixIn)).
Proof.
  intros Hf Hi Hgate Hj Hreach. split; [|split].
  - intros Hu. pose proof (unknown_annotation_text parm Hu) as He. split.
    + apply (printed_in_stdout _ _ _ f); [assumption|].
      apply (merge_printed f UUIDMixIn i j d c parm); try assumption.
      unfold parm_errors. rewrite He. apply elem_of_app. left. apply elem_of_cons. now left.
    + now rewrite He.
  - intros Hu. pose proof (unknown_default_text parm Hu) as He. split; [|split].
    + apply (printed_in_stdout _ _ _ f); [assumption|].
      apply (merge_printed f UUIDMixIn i j d c parm); try assumption.
      unfold parm_errors. rewrite He. apply elem_of_app. right. apply elem_of_cons. now left.
    + now rewrite He.
    + unfold parm_str. rewrite He. reflexivity.
  - intros g Hg. rewrite handle_output. apply elem_of_app. right.
    apply list_elem_of_fmap. now exists g.
Qed.

(** Two runs: over [Sample.fields_dict], where [unit] of [GaugeField], a
    parameter of the target, has an object for default; over
    [Sample.typed_dict], where [typed], a positional parameter without
    default of the class at depth 1, has a class for annotation and is met
    while [field_params] is empty. *)
Lemma unsupported_literal_handling_witness :
  (Sample.Gauge ∈ field_list Sample.fields_dict []
   /\ param_classes Sample.Gauge Sample.UUIDMixIn !! 0%nat = Some (0%nat, cls Sample.Gauge)
   /\ parameters_of (cls Sample.Gauge) !! 1%nat = Some Sample.unit_parm
   /\ unknown_default (default Sample.unit_parm) = true
   /\ default_error Sample.unit_parm
        ∈ stdout (handle Sample.fields_dict [] Sample.UUIDMixIn)
   /\ parm_str Sample.unit_parm = parm_str (without_default Sample.unit_parm))
  /\ (Sample.Typed ∈ field_list Sample.typed_dict []
      /\ param_classes Sample.Typed Sample.UUIDMixIn !! 1%nat = Some (1%nat, Sample.TypedRoot)
      /\ parameters_of Sample.TypedRoot !! 1%nat = Some Sample.typed_parm
      /\ positional_no_default Sample.typed_parm = true
      /\ unknown_annotation (annotation Sample.typed_parm) = true
      /\ annotation_error Sample.typed_parm
           ∈ stdout (handle Sample.typed_dict [] Sample.UUIDMixIn)
      /\ forall g, g ∈ field_list Sample.typed_dict [] ->
           (generate_class Sample.typed_dict.*1 Sample.UUIDMixIn g).1
             ∈ output (handle Sample.typed_dict [] Sample.UUIDMixIn)).
Proof.
  assert (Sample.Gauge ∈ field_list Sample.fields_dict []) as Hf by in_list.
  assert (Sample.Typed ∈ field_list Sample.typed_dict []) as Hg by in_list.
  destruct (unsupported_literal_handling Sample.fields_dict [] Sample.UUIDMixIn
              Sample.Gauge 0 1 0 (cls Sample.Gauge) Sample.unit_parm
              Hf eq_refl eq_refl eq_refl eq_refl) as (_ & Hdefault & _).
  destruct (Hdefault eq_refl) as (Hmsg & _ & Htext).
  destruct (unsupported_literal_handling Sample.typed_dict [] Sample.UUIDMixIn
              Sample.Typed 1 1 1 Sample.TypedRoot Sample.typed_parm
              Hg eq_refl eq_refl eq_refl eq_refl) as (Hannotation & _ & Hall).
  destruct (Hannotation eq_refl) as (Hmsg' & _).
  split.
  - repeat split; try assumption; reflexivity.
  - repeat split; try assumption; reflexivity.
Defined.

(** C3 fails on the code where it speaks of a placeholder: the text of a
    parameter whose default is some object is the text of the same
    parameter without default. *)
Lemma placeholder_for_unknown_default_fails : ~ placeholder_for_unknown_default.
Proof. intros H. now apply (H Sample.unit_parm). Qed.

(** C4, as the code has it.  Nothing in the run looks for repeated names
    or stops it: the file holds the header and then the text of every class
    of [field_list], in order and as often as the class is listed, and
    standard output holds the encoder's error lines and the closing line. *)
Theorem every_class_is_written
    (fields_dict relations_dict : list (string * PyObj)) (UUIDMixIn : ClassDesc) :
  output (handle fields_dict relations_dict UUIDMixIn)
  = file_header
    ++ ((fun f => (generate_class fields_dict.*1 UUIDMixIn f).1)
          <$> field_list fields_dict relations_dict)
  /\ stdout (handle fields_dict relations_dict UUIDMixIn)
     = mjoin ((fun f => printed (merge f UUIDMixIn))
                <$> field_list fields_dict relations_dict)
       ++ ["fields.py successfully generated"]
  /\ length (output (handle fields_dict relations_dict UUIDMixIn))
     = (3 + length (field_list fields_dict relations_dict))%nat.
Proof.
  split; [apply handle_output|]. split; [apply handle_stdout|].
  rewrite handle_output, length_app, length_fmap. reflexivity.
Qed.

(** C4 fails on the code: [fields.__dict__] binds one class to two names,
    [field_list] has it twice, and its text is in the file. *)
Lemma name_collision_abort_fails :
  ~ name_collision_abort Sample.fields_dict [] Sample.UUIDMixIn.
Proof.
  intros H. apply (H ltac:(vm_compute; intros Hd; inversion Hd as [|x l Hx Hl];
                           apply Hx; apply elem_of_cons; now left) Sample.Gauge).
  - in_list.
  - rewrite handle_output. apply elem_of_app. right.
    apply list_elem_of_fmap. exists Sample.Gauge. split; [reflexivity|in_list].
Qed.

(** ** The order of positional and keyword parameters *)












(** *** What lines 67-72 keep out *)



Section LatePositional.
Variable field_class : string.
Variable from_depth0 : Parm -> Prop.



End LatePositional.





(** Where the target has a keyword-only parameter without default the
    signature is not in order: the text does not say [*], and [b] stands
    bare behind [a=None]. *)
Example keyword_only_breaks_order :
  own_text_ordered Sample.KwOnly = false
  /\ signature_strs (merge Sample.KwOnly Sample.UUIDMixIn)
     = ["self"; "a=None"; "b"; "choices=None"; "uuid: UUID=None"; "**kw"].
Proof. split; vm_compute; reflexivity. Qed.


Example pair_signature :
  signature_strs (merge Sample.Pair Sample.UUIDMixIn)
  = ["self"; "first"; "uuid: UUID=None"; "**kw"].
Proof. vm_compute. reflexivity. Qed.

(** ** Names in the signature *)

(** The names between [self] and [**kw] are pairwise different and none of
    them is [self]; the whole signature has no name twice as long as no
    class declares a parameter called [kw]. *)
Lemma signature_names_unique (field : PyClass) (UUIDMixIn : ClassDesc) :
  NoDup (entry_name <$> field_params (merge field UUIDMixIn))
  /\ ("self" ∉ entry_name <$> field_params (merge field UUIDMixIn))
  /\ ("kw" ∉ entry_name <$> field_params (merge field UUIDMixIn) ->
      NoDup (signature_names (merge field UUIDMixIn))).
Proof.
  destruct (merge_consistent field UUIDMixIn) as [_ Hnd Hplain].
  assert ("self" ∉ entry_name <$> field_params (merge field UUIDMixIn)) as Hself.
  { intros Hin. apply list_elem_of_fmap in Hin as (e & Hname & He).
    rewrite Forall_forall in Hplain. destruct (Hplain e He) as [Hsv _].
    unfold self_or_var in Hsv. apply orb_false_iff in Hsv as [Hsv _].
    apply bool_decide_eq_false in Hsv. now apply Hsv. }
  split; [assumption|]. split; [assumption|].
  intros Hkw. unfold signature_names, signature.
  rewrite fmap_cons, fmap_app. simpl. apply NoDup_cons. split.
  - intros Hin. apply elem_of_app in Hin as [Hin|Hin]; [now apply Hself|].
    apply list_elem_of_singleton in Hin. discriminate.
  - apply NoDup_app. split; [assumption|]. split; [|apply NoDup_singleton].
    intros n Hin Hin'. apply list_elem_of_singleton in Hin'. subst n. now apply Hkw.
Qed.

(** C7 at a class that declares [kw=None]: the signature is
    [self, kw=None, kwarg_name=None, choices=None, uuid: UUID=None, **kw],
    with the name [kw] twice. *)
Theorem name_uniqueness_breaks_on_kw :
  signature_names (merge Sample.Tagged Sample.UUIDMixIn)
  = ["self"; "kw"; "kwarg_name"; "choices"; "uuid"; "kw"]
  /\ ~ NoDup (signature_names (merge Sample.Tagged Sample.UUIDMixIn)).
Proof.
  assert (signature_names (merge Sample.Tagged Sample.UUIDMixIn)
          = ["self"; "kw"; "kwarg_name"; "choices"; "uuid"; "kw"]) as Heq
    by (vm_compute; reflexivity).
  split; [exact Heq|]. rewrite Heq. intros Hnd.
  apply NoDup_cons in Hnd as [_ Hnd]. apply NoDup_cons in Hnd as [Hnot _].
  apply Hnot. in_list.
Qed.

(** ** The generated constructor *)

(** C5 at a class that declares [kwarg_name=None]: the [def] written
    for it declares [kwarg_name], [choices] and [uuid]; the call
    [NamedField(kwarg_name='title', label='x')] binds [kwarg_name], the
    comprehension of line 121 leaves every local whose name starts with
    [kw] out, and [super().__init__] gets [label], [choices] and [uuid]
    only. *)
Theorem forwarding_drops_prefixed_names :
  render_params (merge Sample.Named Sample.UUIDMixIn)
  = "self, kwarg_name=None, choices=None, uuid: UUID=None, **kw"
  /\ generated_signature (merge Sample.Named Sample.UUIDMixIn)
     = Some [("kwarg_name", Some PyNone); ("choices", Some PyNone); ("uuid", Some PyNone)]
  /\ exists payload,
       forwarded (merge Sample.Named Sample.UUIDMixIn)
         (PyObject "<NamedField>") (PyObject "<dict>") (PyObject "<class NamedField>")
         Sample.named_call
       = Some payload
       /\ Sample.named_call !! "kwarg_name" = Some (PyStr "title")
       /\ payload !! "kwarg_name" = None
       /\ payload !! "label" = Some (PyStr "x")
       /\ payload !! "choices" = Some PyNone
       /\ payload !! "uuid" = Some PyNone.
Proof.
  split; [vm_compute; reflexivity|]. split; [vm_compute; reflexivity|].
  eexists. split; [vm_compute; reflexivity|].
  repeat split; vm_compute; reflexivity.
Qed.

Lemma bind_parms_keys decls call : forall bound,
  bind_parms decls call = Some bound -> bound.*1 = decls.*1.
Proof.
  induction decls as [|[n d] rest IH]; intros bound Hb; simpl in Hb.
  { now injection Hb as <-. }
  destruct (match call !! n with Some v => Some v | None => d end) as [v|]; [|discriminate].
  destruct (bind_parms rest call) as [bound'|]; [|discriminate].
  injection Hb as <-. rewrite !fmap_cons. simpl. f_equal. now apply IH.
Qed.

Lemma bind_parms_value decls call : forall bound n d,
  bind_parms decls call = Some bound -> (n, d) ∈ decls ->
  exists v, (n, v) ∈ bound
            /\ Some v = match call !! n with
                        | Some v => Some v
                        | None => d
                        end.
Proof.
  induction decls as [|[n0 d0] rest IH]; intros bound n d Hb Hin; [inversion Hin|].
  simpl in Hb.
  destruct (match call !! n0 with Some v => Some v | None => d0 end)
    as [v0|] eqn:Hv0; [|discriminate].
  destruct (bind_parms rest call) as [bound'|]; [|discriminate].
  injection Hb as <-. apply elem_of_cons in Hin as [Heq|Hin].
  - injection Heq as -> ->. exists v0.
    split; [apply elem_of_cons; now left | now rewrite Hv0].
  - destruct (IH bound' n d eq_refl Hin) as (v & Hv & Heq).
    exists v. split; [apply elem_of_cons; now right | assumption].
Qed.

Lemma insert_all_other (items : list (string * PyValue)) : forall (m : gmap string PyValue) k,
  k ∉ items.*1 ->
  fold_left (fun m kv => <[kv.1 := kv.2]> m) items m !! k = m !! k.
Proof.
  induction items as [|[k0 v0] rest IH]; intros m k Hk; simpl; [reflexivity|].
  rewrite fmap_cons, not_elem_of_cons in Hk. destruct Hk as [Hne Hk].
  rewrite (IH _ _ Hk). simpl. now apply lookup_insert_ne.
Qed.

Lemma insert_all_member (items : list (string * PyValue)) :
  forall (m : gmap string PyValue) k v,
  NoDup items.*1 -> (k, v) ∈ items ->
  fold_left (fun m kv => <[kv.1 := kv.2]> m) items m !! k = Some v.
Proof.
  induction items as [|[k0 v0] rest IH]; intros m k v Hnd Hin; [inversion Hin|].
  rewrite fmap_cons in Hnd. apply NoDup_cons in Hnd as [Hfresh Hnd]. simpl.
  apply elem_of_cons in Hin as [Heq|Hin].
  - injection Heq as -> ->. rewrite (insert_all_other _ _ _ Hfresh).
    apply lookup_insert_eq.
  - now apply IH.
Qed.

Lemma collect_kwargs_frame self_obj kw_obj class_cell bound :
  collect_kwargs (frame_locals self_obj kw_obj class_cell bound)
  = fold_left (fun m kv => <[kv.1 := kv.2]> m)
      (filter (fun kv => startswith ["__"; "self"; "kw"] kv.1 = false) bound) ∅.
Proof.
  unfold collect_kwargs, frame_locals.
  rewrite filter_cons_False by (simpl; discriminate).
  rewrite filter_app.
  rewrite (filter_cons_False _ ("kw", kw_obj)) by (simpl; discriminate).
  rewrite (filter_cons_False _ ("__class__", class_cell)) by (simpl; discriminate).
  rewrite filter_nil, app_nil_r. reflexivity.
Qed.

(** A text that reads as a parameter list declares no name twice, and
    neither [self] nor [kw] between [self] and [**kw]. *)
Lemma read_signature_names text decls :
  read_signature text = Some decls ->
  NoDup decls.*1 /\ ("self" ∉ decls.*1) /\ ("kw" ∉ decls.*1)
  /\ defaults_ordered decls = true.
Proof.
  unfold read_signature. intros H.
  destruct (lex Idle text) as [tokens|]; [|discriminate].
  destruct (read_items (split_commas tokens)) as [[|[n [d|]|n] items]|]; try discriminate.
  destruct (String.eqb n "self"); [|discriminate].
  destruct (plain_items items) as [decls'|]; [|discriminate].
  destruct (bool_decide (NoDup ("self" :: decls'.*1 ++ ["kw"])) && defaults_ordered decls')
    eqn:Hok; [|discriminate].
  injection H as <-. apply andb_true_iff in Hok as [Hnd Hord].
  apply bool_decide_eq_true in Hnd. apply NoDup_cons in Hnd as [Hself Hnd].
  apply NoDup_app in Hnd as (Hnd & Hkw & _).
  split; [assumption|]. split; [|split; [|assumption]].
  - intros Hin. apply Hself. apply elem_of_app. now left.
  - intros Hin. apply (Hkw _ Hin). now apply list_elem_of_singleton.
Qed.

(** What a constructor that declares [decls] passes on, key by key: an
    argument that no declared parameter takes goes through [kw]
    unchanged; a declared parameter is passed with the argument given for
    it, else with its default, unless its name starts with [__], [self]
    or [kw], in which case it is not passed at all. *)
Lemma forwarded_lookup st decls self_obj kw_obj class_cell call payload :
  generated_signature st = Some decls ->
  forwarded st self_obj kw_obj class_cell call = Some payload ->
  call !! "self" = None
  /\ (forall key, key ∉ decls.*1 -> payload !! key = call !! key)
  /\ (forall n d, (n, d) ∈ decls ->
        payload !! n
        = if startswith ["__"; "self"; "kw"] n then None
          else match call !! n with
               | Some v => Some v
               | None => d
               end).
Proof.
  intros Hsig Hf. unfold forwarded in Hf. rewrite Hsig in Hf.
  destruct (read_signature_names _ _ Hsig) as (Hnd & _).
  destruct (bool_decide (is_Some (call !! "self"))) eqn:Hself; [discriminate|].
  apply bool_decide_eq_false in Hself.
  destruct (bind_parms decls call) as [bound|] eqn:Hb; [|discriminate].
  injection Hf as <-. unfold init_body. rewrite collect_kwargs_frame.
  pose proof (bind_parms_keys _ _ _ Hb) as Hkeys.
  set (passed := filter (fun kv => startswith ["__"; "self"; "kw"] kv.1 = false) bound).
  assert (forall kv, kv ∈ passed -> kv ∈ bound) as Hsub
    by (intros kv Hkv; now apply list_elem_of_filter in Hkv).
  assert (NoDup passed.*1) as Hkept.
  { apply (sublist_NoDup _ bound.*1); [now rewrite Hkeys|].
    apply fmap_sublist, sublist_filter. }
  split; [|split].
  - destruct (call !! "self") eqn:Hc; [exfalso; apply Hself; eauto | reflexivity].
  - intros key Hkey. rewrite lookup_union_l.
    + unfold bind_kw. destruct (call !! key) as [v|] eqn:Hc.
      * apply map_lookup_filter_Some. now split.
      * apply map_lookup_filter_None. now left.
    + apply insert_all_other. intros Hin. apply Hkey. rewrite <- Hkeys.
      apply list_elem_of_fmap in Hin as (kv & -> & Hkv).
      apply list_elem_of_fmap. exists kv. split; [reflexivity | now apply Hsub].
  - intros n d Hp. rewrite lookup_union_r.
    + destruct (startswith ["__"; "self"; "kw"] n) eqn:Hpre.
      * rewrite insert_all_other; [reflexivity|].
        intros Hin. apply list_elem_of_fmap in Hin as (kv & Hname & Hkv).
        apply list_elem_of_filter in Hkv as [Hnot _]. rewrite <- Hname in Hnot. congruence.
      * destruct (bind_parms_value _ _ _ n d Hb Hp) as (v & Hv & Heq).
        rewrite <- Heq. apply insert_all_member; [assumption|].
        apply list_elem_of_filter. now split.
    + unfold bind_kw. apply map_lookup_filter_None.
      destruct (call !! n) as [v|] eqn:Hc; [right | now left].
      intros v' Hv' Hnot. simpl in Hnot. apply Hnot.
      apply list_elem_of_fmap. now exists (n, d).
Qed.

(** ** Wrapping *)

(** C8 at a class whose constructor has a default with spaces in it: the
    parameter list is wrapped into two lines, the first line is 103
    characters long and ends inside the string, and no line holds the text
    of [help_text] whole. *)
Theorem wrap_splits_string_default :
  wrapped_params (merge Sample.Wide Sample.UUIDMixIn)
  = ["self, read_only=False, write_only=False, required=None, source=None, label=None, help_text='shown under";
     "the input of the form', uuid:_UUID=None, **kw"]
  /\ render_params (merge Sample.Wide Sample.UUIDMixIn)
     = "self, read_only=False, write_only=False, required=None, source=None, label=None, help_text='shown under"
       +:+ nl +:+ spaces 37 +:+ "the input of the form', uuid: UUID=None, **kw"
  /\ exists e,
       e ∈ signature (merge Sample.Wide Sample.UUIDMixIn)
       /\ e_str e = "help_text='shown under the input of the form'"
       /\ Forall (fun line => is_infix (e_str e) line = false)
                 (wrapped_params (merge Sample.Wide Sample.UUIDMixIn)).
Proof.
  split; [vm_compute; reflexivity|]. split; [vm_compute; reflexivity|].
  exists (mkEntry (Sample.keyword "help_text" (PyStr "shown under the input of the form"))
            "help_text='shown under the input of the form'").
  split; [in_list|]. split; [reflexivity|].
  repeat constructor.
Qed.

(** The break opportunities behind the hyphens of hyphenated words, in
    [_split] and in [_handle_long_word]. *)
Example wrap_breaks_behind_hyphens :
  split_chunks "help='a-well-known rule', x=-1"
  = ["help='a-well-"; "known"; " "; "rule',"; " "; "x=-1"]
  /\ wrap "help='a-well-known rule', x=-1" 12 = ["help='a-"; "well-known"; "rule', x=-1"]
  /\ wrap "a-well-known" 9 = ["a-well-"; "known"].
Proof. repeat split; vm_compute; reflexivity. Qed.

(** No line that [wrap] returns is longer than the width. *)

Lemma substring_length s : forall n m, (String.length (substring n m s) <= m)%nat.
Proof.
  induction s as [|c s IH]; intros n m.
  - destruct n, m; simpl; lia.
  - destruct n as [|n]; destruct m as [|m]; simpl; try lia.
    + specialize (IH 0%nat m). lia.
    + apply IH.
    + apply IH.
Qed.

Lemma append_length a b :
  String.length (a +:+ b) = (String.length a + String.length b)%nat.
Proof. induction a as [|c a IH]; simpl; [reflexivity|]. now rewrite IH. Qed.

Lemma chunks_length_app a b :
  chunks_length (a ++ b) = (chunks_length a + chunks_length b)%nat.
Proof. induction a as [|c a IH]; simpl; [reflexivity|]. rewrite IH. lia. Qed.

Lemma concat_length chunks :
  String.length (String.concat "" chunks) = chunks_length chunks.
Proof.
  induction chunks as [|c rest IH]; [reflexivity|].
  destruct rest as [|c' rest].
  - simpl. lia.
  - change (String.concat "" (c :: c' :: rest))
      with (c +:+ "" +:+ String.concat "" (c' :: rest)).
    rewrite !append_length, IH. simpl. lia.
Qed.

Lemma take_fitting_length width chunks : forall cur_len,
  (cur_len <= width)%nat ->
  (cur_len + chunks_length (take_fitting width cur_len chunks).1 <= width)%nat.
Proof.
  induction chunks as [|c rest IH]; intros cur_len Hle; simpl; [lia|].
  destruct (cur_len + String.length c <=? width)%nat eqn:Hfit; simpl; [|lia].
  apply Nat.leb_le in Hfit. specialize (IH _ Hfit).
  destruct (take_fitting width (cur_len + String.length c) rest). simpl in *. lia.
Qed.

Lemma removelast_length chunks :
  (chunks_length (removelast chunks) <= chunks_length chunks)%nat.
Proof.
  induction chunks as [|c rest IH]; simpl; [lia|].
  destruct rest; simpl in *; lia.
Qed.

Lemma drop_last_blank_length chunks :
  (chunks_length (drop_last_blank chunks) <= chunks_length chunks)%nat.
Proof.
  unfold drop_last_blank. destruct (last chunks) as [c|]; [|lia].
  destruct (is_blank c); [apply removelast_length | lia].
Qed.

Lemma rfind_hyphen_lt chunk : forall stop i,
  rfind_hyphen chunk stop = Some i -> (i < stop)%nat.
Proof.
  induction chunk as [|c t IH]; intros stop i H; destruct stop as [|stop]; try discriminate.
  simpl in H. destruct (rfind_hyphen t stop) as [j|] eqn:Hj.
  - injection H as <-. specialize (IH stop j Hj). lia.
  - destruct (Ascii.eqb c "-"%char); [|discriminate]. injection H as <-. lia.
Qed.

Lemma long_word_cut_bounds chunk space_left :
  (long_word_cut chunk space_left <= space_left)%nat
  /\ (1 <= space_left -> 1 <= long_word_cut chunk space_left)%nat.
Proof.
  unfold long_word_cut.
  destruct (space_left <? String.length chunk)%nat; [|lia].
  destruct (rfind_hyphen chunk space_left) as [hyphen|] eqn:Hh; [|lia].
  apply rfind_hyphen_lt in Hh.
  destruct ((0 <? hyphen)%nat && has_non_hyphen (substring 0 hyphen chunk)); lia.
Qed.

Lemma wrap_line_width width lines chunks :
  (1 <= width)%nat ->
  Forall (fun line => (String.length line <= width)%nat) lines ->
  Forall (fun line => (String.length line <= width)%nat) (wrap_line width lines chunks).1.
Proof.
  intros Hw Hlines. unfold wrap_line.
  set (chunks0 := match chunks with [] => chunks | _ => _ end).
  pose proof (take_fitting_length width chunks0 0 ltac:(lia)) as Hfit.
  destruct (take_fitting width 0 chunks0) as [cur_line rest]. simpl in Hfit.
  set (step := match rest with [] => (cur_line, rest) | _ => _ end).
  assert (chunks_length step.1 <= width)%nat as Hstep.
  { subst step. destruct rest as [|c rest']; [assumption|].
    destruct (width <? String.length c)%nat; [|assumption].
    unfold handle_long_word.
    assert ((width <? 1)%nat = false) as -> by (apply Nat.ltb_ge; lia).
    simpl. rewrite chunks_length_app. simpl.
    pose proof (long_word_cut_bounds c (width - chunks_length cur_line)) as [Hcut _].
    pose proof (substring_length c 0 (long_word_cut c (width - chunks_length cur_line))).
    lia. }
  destruct step as [cur_line' rest']. simpl in Hstep.
  pose proof (drop_last_blank_length cur_line') as Hdrop.
  destruct (drop_last_blank cur_line') as [|c l] eqn:Hd; cbn [fst]; [assumption|].
  apply Forall_app. split; [assumption|]. constructor; [|constructor].
  rewrite concat_length. lia.
Qed.

Lemma wrap_chunks_width fuel width : forall lines chunks,
  (1 <= width)%nat ->
  Forall (fun line => (String.length line <= width)%nat) lines ->
  Forall (fun line => (String.length line <= width)%nat)
         (wrap_chunks fuel width lines chunks).
Proof.
  induction fuel as [|fuel IH]; intros lines chunks Hw Hlines; simpl; [assumption|].
  destruct chunks as [|c rest]; [assumption|].
  pose proof (wrap_line_width width lines (c :: rest) Hw Hlines) as Hstep.
  destruct (wrap_line width lines (c :: rest)) as [lines' chunks']. now apply IH.
Qed.

Lemma wrapped_params_width (st : MergeState) :
  Forall (fun line => (String.length line <= 103)%nat) (wrapped_params st).
Proof. unfold wrapped_params, wrap. apply wrap_chunks_width; [lia|constructor]. Qed.

(** The fuel [wrap] gives to [wrap_chunks] is enough: every turn of the
    loop shortens what is left of the text, so any larger fuel gives the
    same lines. *)

Lemma substring_length_exact s : forall n m,
  (n + m <= String.length s)%nat -> String.length (substring n m s) = m.
Proof.
  induction s as [|c s IH]; intros n m Hle; simpl in Hle.
  - assert (n = 0 /\ m = 0)%nat as [-> ->] by lia. reflexivity.
  - destruct n as [|n]; destruct m as [|m]; simpl.
    + reflexivity.
    + f_equal. apply IH. simpl. lia.
    + apply IH. lia.
    + apply IH. lia.
Qed.

Lemma take_fitting_split width chunks : forall cur_len,
  chunks = (take_fitting width cur_len chunks).1 ++ (take_fitting width cur_len chunks).2.
Proof.
  induction chunks as [|c rest IH]; intros cur_len; simpl; [reflexivity|].
  destruct (cur_len + String.length c <=? width)%nat; [|reflexivity].
  specialize (IH (cur_len + String.length c)%nat).
  destruct (take_fitting width (cur_len + String.length c) rest). simpl in *. now f_equal.
Qed.

Lemma chunks_from_nonempty s : forall before,
  Forall (fun c => (1 <= String.length c)%nat) (chunks_from before s).
Proof.
  induction s as [|c s IH]; intros before; cbn [chunks_from]; [constructor|].
  specialize (IH (String c before)).
  destruct (chunks_from (String c before) s) as [|ch rest].
  - constructor; [simpl; lia | constructor].
  - inversion IH as [|x l Hx Hl]; subst.
    destruct (breaks_between (String c before) s).
    + constructor; [simpl; lia|]. now constructor.
    + constructor; [simpl; lia | assumption].
Qed.

Lemma chunks_from_length s : forall before,
  chunks_length (chunks_from before s) = String.length s.
Proof.
  induction s as [|c s IH]; intros before; cbn [chunks_from]; [reflexivity|].
  specialize (IH (String c before)).
  destruct (chunks_from (String c before) s) as [|ch rest].
  - simpl in *. lia.
  - destruct (breaks_between (String c before) s); simpl in *; lia.
Qed.

Lemma split_chunks_nonempty s :
  Forall (fun c => (1 <= String.length c)%nat) (split_chunks s).
Proof. apply chunks_from_nonempty. Qed.

Lemma split_chunks_length s : chunks_length (split_chunks s) = String.length s.
Proof. apply chunks_from_length. Qed.

Lemma wrap_line_progress width lines c rest :
  (1 <= width)%nat ->
  Forall (fun c => (1 <= String.length c)%nat) (c :: rest) ->
  Forall (fun c => (1 <= String.length c)%nat) (wrap_line width lines (c :: rest)).2
  /\ (chunks_length (wrap_line width lines (c :: rest)).2 < chunks_length (c :: rest))%nat.
Proof.
  intros Hw Hne. unfold wrap_line.
  set (chunks0 := if is_blank c && negb (bool_decide (lines = [])) then rest else c :: rest).
  assert (Forall (fun c => (1 <= String.length c)%nat) chunks0
          /\ (chunks0 = c :: rest
              \/ (chunks_length chunks0 < chunks_length (c :: rest))%nat)) as [Hne0 Hlen0].
  { subst chunks0. inversion Hne as [|x l Hc Hrest]; subst.
    destruct (is_blank c && negb (bool_decide (lines = []))).
    - split; [assumption|]. right. simpl. lia.
    - split; [assumption|]. now left. }
  pose proof (take_fitting_split width chunks0 0) as Hsplit.
  pose proof (take_fitting_length width chunks0 0 ltac:(lia)) as Hfit.
  assert (forall c1 r, chunks0 = c1 :: r -> (take_fitting width 0 chunks0).1 = [] ->
                       (width < String.length c1)%nat) as Hhead.
  { intros c1 r -> Hnil. simpl in Hnil.
    destruct (String.length c1 <=? width)%nat eqn:Hle.
    - destruct (take_fitting width (String.length c1) r). discriminate.
    - apply Nat.leb_gt in Hle. lia. }
  destruct (take_fitting width 0 chunks0) as [cur rem]. simpl in Hsplit, Hfit, Hhead.
  assert (chunks_length chunks0 <= chunks_length (c :: rest))%nat as Hle0
    by (destruct Hlen0 as [->|]; lia).
  rewrite Hsplit in Hne0. apply Forall_app in Hne0 as [Hcur Hrem].
  assert (chunks_length chunks0 = chunks_length cur + chunks_length rem)%nat as Hsum
    by (rewrite Hsplit; apply chunks_length_app).
  destruct rem as [|c1 r].
  { simpl. split; [constructor|]. inversion Hne; subst. simpl. lia. }
  inversion Hrem as [|x l Hc1 Hr]; subst x l.
  destruct (width <? String.length c1)%nat eqn:Hlong.
  - apply Nat.ltb_lt in Hlong. unfold handle_long_word.
    assert ((width <? 1)%nat = false) as -> by (apply Nat.ltb_ge; lia).
    pose proof (long_word_cut_bounds c1 (width - chunks_length cur)) as [Hcut Hpos].
    set (cut := long_word_cut c1 (width - chunks_length cur)) in *.
    assert (String.length (substring cut (String.length c1 - cut) c1)
            = String.length c1 - cut)%nat as Hsub
      by (apply substring_length_exact; lia).
    simpl in Hsum, Hle0 |- *. rewrite Hsub. split.
    + constructor; [lia | assumption].
    + lia.
  - apply Nat.ltb_ge in Hlong. simpl in Hsum, Hle0 |- *. split; [assumption|].
    destruct cur as [|x cur'].
    + specialize (Hhead c1 r Hsplit eq_refl). lia.
    + inversion Hcur; subst. simpl in Hsum. lia.
Qed.

Lemma wrap_chunks_fuel width : forall fuel1 fuel2 lines chunks,
  (1 <= width)%nat ->
  Forall (fun c => (1 <= String.length c)%nat) chunks ->
  (chunks_length chunks < fuel1)%nat -> (chunks_length chunks < fuel2)%nat ->
  wrap_chunks fuel1 width lines chunks = wrap_chunks fuel2 width lines chunks.
Proof.
  induction fuel1 as [|fuel1 IH]; intros fuel2 lines chunks Hw Hne H1 H2; [lia|].
  destruct fuel2 as [|fuel2]; [lia|]. simpl.
  destruct chunks as [|c rest]; [reflexivity|].
  destruct (wrap_line_progress width lines c rest Hw Hne) as [Hne' Hlt].
  destruct (wrap_line width lines (c :: rest)) as [lines' chunks'].
  simpl in Hne', Hlt, H1, H2. apply IH; try assumption; lia.
Qed.

Lemma wrap_enough_fuel text width fuel :
  (1 <= width)%nat -> (String.length text < fuel)%nat ->
  wrap_chunks fuel width [] (split_chunks text) = wrap text width.
Proof.
  intros Hw Hfuel. unfold wrap.
  apply wrap_chunks_fuel; try assumption; try apply split_chunks_nonempty;
    rewrite split_chunks_length; lia.
Qed.

(** * Further properties of the generator *)

(** ** The two [replace] calls of lines 105-106 *)

Lemma string_pair_ind (P : string -> Prop) :
  P "" -> (forall c, P (String c "")) ->
  (forall c d r, P r -> P (String d r) -> P (String c (String d r))) ->
  forall s, P s.
Proof.
  intros Hnil Hone Hstep s.
  assert (P s /\ forall c, P (String c s)) as [H _]; [|exact H].
  induction s as [|d r [IH1 IH2]]; split; auto.
Qed.

Lemma replace2_head a b new d r :
  (exists n rest, new = String a (String n rest)) ->
  exists tail, replace2 a b new (String d r) = String d tail.
Proof.
  intros (n & rest & ->). destruct r as [|e r']; simpl; [now eexists|].
  destruct (Ascii.eqb d a && Ascii.eqb e b) eqn:Hm; [|now eexists].
  apply andb_true_iff in Hm as [Hd _]. apply Ascii.eqb_eq in Hd. subst d.
  simpl. now eexists.
Qed.

Lemma replace2_pair a b new c d r :
  replace2 a b new (String c (String d r))
  = if Ascii.eqb c a && Ascii.eqb d b then new +:+ replace2 a b new r
    else String c (replace2 a b new (String d r)).
Proof. reflexivity. Qed.

Lemma is_infix_cons needle c t :
  is_infix needle (String c t)
  = String.prefix needle (String c t) || is_infix needle t.
Proof. reflexivity. Qed.

Lemma is_infix_tail needle c t :
  is_infix needle (String c t) = false -> is_infix needle t = false.
Proof. rewrite is_infix_cons. intros H. now apply orb_false_iff in H as [_ H]. Qed.

Lemma replace2_undo (s : string) :
  is_infix ":_" s = false ->
  replace2 ":"%char "_"%char ": " (replace2 ":"%char " "%char ":_" s) = s.
Proof.
  induction s as [| c | c d r IHr IHdr] using string_pair_ind; intros Hno;
    [reflexivity | reflexivity |].
  pose proof (is_infix_tail _ _ _ Hno) as Hno1.
  pose proof (is_infix_tail _ _ _ Hno1) as Hno2.
  rewrite replace2_pair.
  destruct (Ascii.eqb c ":" && Ascii.eqb d " ")%char eqn:Hm.
  - apply andb_true_iff in Hm as [Hc Hd].
    apply Ascii.eqb_eq in Hc, Hd. subst c d.
    change (":_" +:+ replace2 ":"%char " "%char ":_" r)
      with (String ":"%char (String "_"%char (replace2 ":"%char " "%char ":_" r))).
    rewrite replace2_pair. simpl. now rewrite (IHr Hno2).
  - destruct (replace2_head ":"%char " "%char ":_" d r) as (tail & Htail);
      [now exists "_"%char, ""|].
    specialize (IHdr Hno1). rewrite Htail in IHdr |- *. rewrite replace2_pair.
    assert (Ascii.eqb c ":" && Ascii.eqb d "_" = false)%char as ->.
    { destruct (Ascii.eqb c ":")%char eqn:Hc; [|reflexivity].
      destruct (Ascii.eqb d "_")%char eqn:Hd; [|reflexivity].
      apply Ascii.eqb_eq in Hc, Hd. subst c d.
      rewrite is_infix_cons in Hno.
      assert (String.prefix ":_" (String ":"%char (String "_"%char r)) = true) as Hyes
        by (destruct r; reflexivity).
      rewrite Hyes in Hno. discriminate. }
    now rewrite IHdr.
Qed.

(** X9. Line 106 undoes line 105: on a text that has no [:_] in it,
    replacing [": "] by [":_"] and then [":_"] by [": "] gives the text
    back. *)
Theorem replace_round_trip (s : string) :
  is_infix ":_" s = false ->
  replace2 ":"%char "_"%char ": " (replace2 ":"%char " "%char ":_" s) = s.
Proof. apply replace2_undo. Qed.

(** The text of an annotated parameter, and one the round trip spoils. *)
Lemma replace_round_trip_witness :
  is_infix ":_" "uuid: UUID=None, sep=': '" = false
  /\ replace2 ":"%char "_"%char ": "
       (replace2 ":"%char " "%char ":_" "uuid: UUID=None, sep=': '")
     = "uuid: UUID=None, sep=': '"
  /\ replace2 ":"%char "_"%char ": " (replace2 ":"%char " "%char ":_" "sep=':_'")
     = "sep=': '".
Proof.
  split; [reflexivity|]. split; [|reflexivity].
  exact (replace_round_trip "uuid: UUID=None, sep=': '" eq_refl).
Defined.

(** ** The walk over the MRO (lines 42-45) *)

Lemma enumerate_shape classes : forall depth,
  (enumerate_until_Field depth classes).*1
  = seq depth (length (enumerate_until_Field depth classes))
  /\ ((Forall (fun c => is_Field c = false) classes
       /\ (enumerate_until_Field depth classes).*2 = classes)
      \/ exists before F after,
           classes = before ++ F :: after
           /\ Forall (fun c => is_Field c = false) before
           /\ is_Field F = true
           /\ (enumerate_until_Field depth classes).*2 = before ++ [F]).
Proof.
  induction classes as [|c rest IH]; intros depth; cbn [enumerate_until_Field].
  { split; [reflexivity|]. left. split; [constructor | reflexivity]. }
  destruct (is_Field c) eqn:HF.
  - split; [reflexivity|]. right. exists [], c, rest. repeat split; [constructor | assumption].
  - rewrite !fmap_cons. cbn [length seq fst snd].
    destruct (IH (S depth))
      as [Hd [[Hall Hcls]|(before & F & after & Hsplit & Hall & HisF & Hcls)]].
    + split; [now f_equal|]. left. split; [now constructor | now f_equal].
    + split; [now f_equal|]. right. exists (c :: before), F, after.
      split; [simpl; now f_equal|]. split; [now constructor|].
      split; [assumption|]. simpl. now f_equal.
Qed.

(** X2. The classes looked at are the MRO up to and including the first
    [fields.Field], or the whole MRO when [fields.Field] is not in it; no
    class behind [fields.Field] is looked at, and the depth of a class is
    its position in the MRO. *)
Theorem chain_stops_at_Field (field : PyClass) :
  (chain field).*1 = seq 0 (length (chain field))
  /\ ((Forall (fun c => is_Field c = false) (mro field)
       /\ (chain field).*2 = mro field)
      \/ exists before F after,
           mro field = before ++ F :: after
           /\ Forall (fun c => is_Field c = false) before
           /\ is_Field F = true
           /\ (chain field).*2 = before ++ [F]).
Proof. apply enumerate_shape. Qed.

(** ** What lines 58-66 keep out of [field_params] *)

Lemma process_parm_kept field_class depth st had parm :
  Forall (fun e => kept field_class (e_parm e) = true) (field_params st) ->
  Forall (fun e => kept field_class (e_parm e) = true)
         (field_params (process_parm field_class depth (st, had) parm).1).
Proof.
  intros Hall.
  destruct (process_parm_appends field_class depth st had parm)
    as [[Hf _]|(Hf & _ & Hu & Hsv & _)]; rewrite Hf; [assumption|].
  apply Forall_app. split; [assumption|]. constructor; [|constructor].
  unfold kept. simpl. now rewrite Hu, Hsv.
Qed.

Lemma parm_loop_kept field_class depth parameters : forall st had,
  Forall (fun e => kept field_class (e_parm e) = true) (field_params st) ->
  Forall (fun e => kept field_class (e_parm e) = true)
         (field_params (fold_left (process_parm field_class depth) parameters (st, had)).1).
Proof.
  induction parameters as [|parm rest IH]; intros st had Hall; cbn [fold_left]; [assumption|].
  pose proof (process_parm_kept field_class depth st had parm Hall) as Hstep.
  destruct (process_parm field_class depth (st, had) parm) as [st' had']. now apply IH.
Qed.

Lemma process_class_kept field_class depth c st :
  Forall (fun e => kept field_class (e_parm e) = true) (field_params st) ->
  Forall (fun e => kept field_class (e_parm e) = true)
         (field_params (process_class field_class depth c st)).
Proof.
  intros Hall. unfold process_class.
  destruct (cls_init c) as [parameters|]; [|assumption].
  pose proof (parm_loop_kept field_class depth parameters (with_skip_depth 0 st) false Hall)
    as Hloop.
  destruct (fold_left _ parameters _) as [st' had]. now destruct had.
Qed.

Lemma loop_kept field_class classes : forall st,
  Forall (fun e => kept field_class (e_parm e) = true) (field_params st) ->
  Forall (fun e => kept field_class (e_parm e) = true)
         (field_params (fold_left (visit field_class) classes st)).
Proof.
  induction classes as [|[d c] rest IH]; intros st Hall; simpl; [assumption|].
  apply IH. destruct (skip_depth st <? d)%nat; [assumption|].
  now apply process_class_kept.
Qed.

(** X3. The class generated for [BooleanField] never takes [allow_null],
    whichever class of its hierarchy, the mix-in included, declares it. *)
Theorem BooleanField_without_allow_null (field : PyClass) (UUIDMixIn : ClassDesc) :
  cls_name (cls field) = "BooleanField" ->
  "allow_null" ∉ signature_names (merge field UUIDMixIn).
Proof.
  intros Hname Hin. unfold signature_names, signature in Hin.
  rewrite fmap_cons, fmap_app in Hin.
  apply elem_of_cons in Hin as [Hin|Hin]; [discriminate|].
  apply elem_of_app in Hin as [Hin|Hin];
    [|apply list_elem_of_singleton in Hin; discriminate].
  apply list_elem_of_fmap in Hin as (e & Hn & He).
  pose proof (loop_kept (cls_name (cls field)) (param_classes field UUIDMixIn) init_state
                ltac:(constructor)) as Hall.
  fold (merge field UUIDMixIn) in Hall. rewrite Forall_forall in Hall.
  specialize (Hall e He). unfold kept, unwanted in Hall. rewrite Hname in Hall.
  unfold entry_name in Hn. rewrite <- Hn in Hall. discriminate.
Qed.

(** The signature of [Sample.Boolean], whose root declares [allow_null]. *)
Lemma BooleanField_without_allow_null_witness :
  cls_name (cls Sample.Boolean) = "BooleanField"
  /\ declares Sample.NullableRoot (Sample.keyword "allow_null" (PyBool false))
  /\ "read_only" ∈ signature_names (merge Sample.Boolean Sample.UUIDMixIn)
  /\ "allow_null" ∉ signature_names (merge Sample.Boolean Sample.UUIDMixIn).
Proof.
  split; [reflexivity|]. split; [eexists; split; [reflexivity|in_list]|].
  split; [in_list|].
  exact (BooleanField_without_allow_null Sample.Boolean Sample.UUIDMixIn eq_refl).
Defined.

Lemma prefix_append n rest : String.prefix n (n +:+ rest) = true.
Proof.
  induction n as [|a n IH]; simpl.
  - now destruct rest.
  - destruct (ascii_dec a a); [assumption | congruence].
Qed.

(** X4. Every parameter between [self] and [**kw] is an ordinary one:
    it is neither variadic nor called [self], its text is what the encoder
    makes of it, and the text starts with the parameter's name. *)
Theorem merged_entries_are_plain (field : PyClass) (UUIDMixIn : ClassDesc) :
  Forall (fun e => kind (e_parm e) <> VAR_POSITIONAL
                   /\ kind (e_parm e) <> VAR_KEYWORD
                   /\ entry_name e <> "self"
                   /\ e_str e = parm_str (e_parm e)
                   /\ String.prefix (entry_name e) (e_str e) = true)
         (field_params (merge field UUIDMixIn)).
Proof.
  eapply Forall_impl; [exact (entries_plain _ (merge_consistent field UUIDMixIn))|].
  intros e [Hsv Hstr]. unfold self_or_var, is_var in Hsv.
  apply orb_false_iff in Hsv as [Hself Hvar].
  apply orb_false_iff in Hvar as [Hkw Hpos].
  apply bool_decide_eq_false in Hself, Hkw, Hpos.
  repeat split; try assumption.
  rewrite Hstr. apply prefix_append.
Qed.

(** ** The constructor of a generated class, in general *)

(** X13. What the constructor written for a class hands to
    [super().__init__] when the written [def] is Python and a call binds:
    the [def] declares no name twice; a key no declared parameter takes
    arrives as given; a declared parameter arrives with the argument given
    for it, else with the default the written text gives it, unless its
    name starts with [__], [self] or [kw], and then it does not arrive. *)
Theorem generated_init_forwards (st : MergeState)
    (decls : list (string * option PyValue))
    (self_obj kw_obj class_cell : PyValue) (call payload : gmap string PyValue) :
  generated_signature st = Some decls ->
  forwarded st self_obj kw_obj class_cell call = Some payload ->
  NoDup ("self" :: decls.*1 ++ ["kw"])
  /\ call !! "self" = None
  /\ (forall key, key ∉ decls.*1 -> payload !! key = call !! key)
  /\ (forall n d, (n, d) ∈ decls ->
        payload !! n
        = if startswith ["__"; "self"; "kw"] n then None
          else match call !! n with
               | Some v => Some v
               | None => d
               end).
Proof.
  intros Hsig Hf. split; [|now apply (forwarded_lookup st decls self_obj kw_obj class_cell)].
  destruct (read_signature_names _ _ Hsig) as (Hnd & Hself & Hkw & _).
  apply NoDup_cons. split.
  - intros Hin. apply elem_of_app in Hin as [Hin|Hin]; [now apply Hself|].
    apply list_elem_of_singleton in Hin. discriminate.
  - apply NoDup_app. split; [assumption|]. split; [|apply NoDup_singleton].
    intros n Hin Hin'. apply list_elem_of_singleton in Hin'. subst n. now apply Hkw.
Qed.

(** The call [NamedField(kwarg_name='title', label='x')]. *)
Lemma generated_init_forwards_witness :
  exists decls payload,
    generated_signature (merge Sample.Named Sample.UUIDMixIn) = Some decls
    /\ forwarded (merge Sample.Named Sample.UUIDMixIn)
         (PyObject "<NamedField>") (PyObject "<dict>") (PyObject "<class NamedField>")
         Sample.named_call = Some payload
    /\ forall key, key ∉ decls.*1 -> payload !! key = Sample.named_call !! key.
Proof.
  do 2 eexists. split; [vm_compute; reflexivity|]. split; [vm_compute; reflexivity|].
  refine (proj1 (proj2 (proj2 (generated_init_forwards
                                 (merge Sample.Named Sample.UUIDMixIn) _
                                 (PyObject "<NamedField>") (PyObject "<dict>")
                                 (PyObject "<class NamedField>") Sample.named_call _ _ _))));
    vm_compute; reflexivity.
Defined.

(** The text decides, not the host's declaration.  The default [':_'] of
    [SepField] is written as [': '] by line 106, and that is the default
    of the generated constructor; the [def] written for [Tagged] names
    [kw] twice, the one for [KwOnly] has a parameter without default
    behind one with a default, the one for [Wide] breaks a line inside a
    string: none of the three is Python. *)
Example generated_defaults_come_from_the_text :
  generated_signature (merge Sample.Sep Sample.UUIDMixIn)
  = Some [("sep", Some (PyStr ": ")); ("choices", Some PyNone); ("uuid", Some PyNone)]
  /\ generated_signature (merge Sample.Tagged Sample.UUIDMixIn) = None
  /\ generated_signature (merge Sample.KwOnly Sample.UUIDMixIn) = None
  /\ generated_signature (merge Sample.Wide Sample.UUIDMixIn) = None.
Proof. repeat split; vm_compute; reflexivity. Qed.

(** ** Runs without error lines (lines 77-94) *)

Lemma recognised_no_errors parm : recognised parm = true -> parm_errors parm = [].
Proof.
  unfold recognised, unknown_annotation, unknown_default, parm_errors,
    encode_annotation, encode_default.
  intros H. apply andb_true_iff in H as [Ha Hd].
  destruct (bool_decide (annotation parm <> Py_empty)),
    (is_literal (annotation parm)), (bool_decide (annotation parm = PyUUID)),
    (bool_decide (default parm <> Py_empty)),
    (is_literal (default parm)), (bool_decide (default parm = PyFieldsEmpty));
    simpl in *; try reflexivity; discriminate.
Qed.

Lemma process_parm_quiet field_class depth st had parm :
  recognised parm = true ->
  printed (process_parm field_class depth (st, had) parm).1 = printed st.
Proof.
  intros Hr. unfold process_parm.
  destruct (unwanted field_class parm); [reflexivity|].
  destruct (self_or_var parm); [reflexivity|].
  destruct (ordering_skip depth st parm); [reflexivity|].
  rewrite (recognised_no_errors parm Hr), app_nil_r.
  now destruct (bool_decide (name parm ∈ field_params_names st)).
Qed.

Lemma parm_loop_quiet field_class depth parameters : forall st had,
  forallb recognised parameters = true ->
  printed (fold_left (process_parm field_class depth) parameters (st, had)).1 = printed st.
Proof.
  induction parameters as [|parm rest IH]; intros st had Hall; cbn [fold_left]; [reflexivity|].
  simpl in Hall. apply andb_true_iff in Hall as [Hr Hrest].
  pose proof (process_parm_quiet field_class depth st had parm Hr) as Hstep.
  destruct (process_parm field_class depth (st, had) parm) as [st' had'].
  rewrite (IH st' had' Hrest). exact Hstep.
Qed.

Lemma loop_quiet field_class classes : forall st,
  all_recognised classes.*2 = true ->
  printed (fold_left (visit field_class) classes st) = printed st.
Proof.
  induction classes as [|[d c] rest IH]; intros st Hall; [reflexivity|].
  rewrite fmap_cons in Hall. simpl in Hall. apply andb_true_iff in Hall as [Hc Hrest].
  cbn [fold_left]. rewrite (IH _ Hrest). unfold visit.
  destruct (skip_depth st <? d)%nat; [reflexivity|]. unfold process_class.
  destruct (cls_init c) as [parameters|]; [|reflexivity].
  pose proof (parm_loop_quiet field_class d parameters (with_skip_depth 0 st) false Hc)
    as Hloop.
  destruct (fold_left _ parameters _) as [st' had]. now destruct had.
Qed.

Lemma enumerate_recognised classes : forall depth,
  all_recognised classes = true ->
  all_recognised (enumerate_until_Field depth classes).*2 = true.
Proof.
  induction classes as [|c rest IH]; intros depth Hall; [reflexivity|].
  simpl in Hall. apply andb_true_iff in Hall as [Hc Hrest].
  cbn [enumerate_until_Field]. rewrite fmap_cons. simpl. rewrite Hc. simpl.
  destruct (is_Field c); [reflexivity|]. now apply IH.
Qed.

Lemma all_recognised_app a b :
  all_recognised (a ++ b) = all_recognised a && all_recognised b.
Proof. apply forallb_app. Qed.

Lemma merge_quiet field UUIDMixIn :
  all_recognised (mro field ++ [UUIDMixIn]) = true ->
  printed (merge field UUIDMixIn) = [].
Proof.
  intros Hall. unfold merge. rewrite loop_quiet; [reflexivity|].
  rewrite all_recognised_app in Hall. apply andb_true_iff in Hall as [Hmro Hmix].
  unfold param_classes. rewrite fmap_app, all_recognised_app.
  rewrite (enumerate_recognised _ 0 Hmro). exact Hmix.
Qed.

(** X7. When every annotation and default in the hierarchies of the
    generated classes and in the mix-in is one the encoder has a text for,
    the run prints nothing but its closing line. *)
Theorem quiet_run (fields_dict relations_dict : list (string * PyObj))
    (UUIDMixIn : ClassDesc) :
  forallb (fun f => all_recognised (mro f ++ [UUIDMixIn]))
          (field_list fields_dict relations_dict) = true ->
  stdout (handle fields_dict relations_dict UUIDMixIn)
  = ["fields.py successfully generated"].
Proof.
  intros Hall. rewrite handle_stdout.
  assert (mjoin ((fun f => printed (merge f UUIDMixIn))
                   <$> field_list fields_dict relations_dict) = []) as ->; [|reflexivity].
  induction (field_list fields_dict relations_dict) as [|f rest IH]; [reflexivity|].
  simpl in Hall. apply andb_true_iff in Hall as [Hf Hrest].
  rewrite fmap_cons. simpl. rewrite (merge_quiet f UUIDMixIn Hf). now apply IH.
Qed.

(** The run over [Sample.quiet_dict]. *)
Lemma quiet_run_witness :
  forallb (fun f => all_recognised (mro f ++ [Sample.UUIDMixIn]))
          (field_list Sample.quiet_dict []) = true
  /\ length (field_list Sample.quiet_dict []) = 2%nat
  /\ stdout (handle Sample.quiet_dict [] Sample.UUIDMixIn)
     = ["fields.py successfully generated"].
Proof.
  split; [reflexivity|]. split; [reflexivity|].
  exact (quiet_run Sample.quiet_dict [] Sample.UUIDMixIn eq_refl).
Defined.

(** ** Where error lines come from *)

Lemma parm_errors_cause parm msg :
  msg ∈ parm_errors parm ->
  (msg = annotation_error parm /\ unknown_annotation (annotation parm) = true)
  \/ (msg = default_error parm /\ unknown_default (default parm) = true).
Proof.
  unfold parm_errors, encode_annotation, encode_default, unknown_annotation,
    unknown_default, annotation_error, default_error.
  intros Hin. apply elem_of_app in Hin as [Hin|Hin]; [left|right];
    destruct (bool_decide (_ <> Py_empty)), (is_literal _), (bool_decide (_ = _));
    simpl in Hin; try (now inversion Hin);
    apply list_elem_of_singleton in Hin; now split.
Qed.

Lemma process_parm_printed_cause field_class depth st had parm msg :
  msg ∈ printed (process_parm field_class depth (st, had) parm).1 ->
  msg ∈ printed st \/ msg ∈ parm_errors parm.
Proof.
  unfold process_parm.
  destruct (unwanted field_class parm); [now left|].
  destruct (self_or_var parm); [now left|].
  destruct (ordering_skip depth st parm); [now left|].
  destruct (bool_decide (name parm ∈ field_params_names st)); simpl;
    intros Hin; now apply elem_of_app in Hin.
Qed.

Lemma parm_loop_printed_cause field_class depth parameters : forall st had msg,
  msg ∈ printed (fold_left (process_parm field_class depth) parameters (st, had)).1 ->
  msg ∈ printed st \/ exists parm, parm ∈ parameters /\ msg ∈ parm_errors parm.
Proof.
  induction parameters as [|parm rest IH]; intros st had msg Hin; cbn [fold_left] in Hin;
    [now left|].
  pose proof (process_parm_printed_cause field_class depth st had parm msg) as Hstep.
  destruct (process_parm field_class depth (st, had) parm) as [st' had'].
  apply IH in Hin as [Hin|(p & Hp & Hmsg)].
  - destruct (Hstep Hin) as [Hold|Hnew]; [now left|].
    right. exists parm. split; [apply elem_of_cons; now left | assumption].
  - right. exists p. split; [apply elem_of_cons; now right | assumption].
Qed.

Lemma loop_printed_cause field_class classes : forall st msg,
  msg ∈ printed (fold_left (visit field_class) classes st) ->
  msg ∈ printed st
  \/ exists dc parm, dc ∈ classes /\ declares dc.2 parm /\ msg ∈ parm_errors parm.
Proof.
  induction classes as [|[d c] rest IH]; intros st msg Hin; cbn [fold_left] in Hin;
    [now left|].
  apply IH in Hin as [Hin|(dc & p & Hdc & Hdecl & Hmsg)].
  - unfold visit in Hin. destruct (skip_depth st <? d)%nat; [now left|].
    unfold process_class in Hin. destruct (cls_init c) as [parameters|] eqn:Hinit;
      [|now left].
    pose proof (parm_loop_printed_cause field_class d parameters
                  (with_skip_depth 0 st) false msg) as Hloop.
    destruct (fold_left _ parameters _) as [st' had].
    assert (msg ∈ printed st') as Hin' by now destruct had.
    destruct (Hloop Hin') as [Hold|(p & Hp & Hmsg)]; [now left|].
    right. exists (d, c), p. split; [apply elem_of_cons; now left|].
    split; [|assumption]. exists parameters. now split.
  - right. exists dc, p. split; [apply elem_of_cons; now right | now split].
Qed.

Lemma enumerate_members classes : forall depth d c,
  (d, c) ∈ enumerate_until_Field depth classes -> c ∈ classes.
Proof.
  induction classes as [|c0 rest IH]; intros depth d c Hin; [inversion Hin|].
  cbn [enumerate_until_Field] in Hin. apply elem_of_cons in Hin as [Heq|Hin].
  - injection Heq as -> ->. apply elem_of_cons. now left.
  - destruct (is_Field c0); [inversion Hin|]. apply elem_of_cons. right.
    now apply (IH (S depth) d).
Qed.

(** X8. No error line without a cause: every line of standard output
    other than the closing line is the annotation or the default error of
    a parameter that a class of some generated class's MRO, or the mix-in,
    declares with a value the encoder has no text for. *)
Theorem error_lines_have_a_cause (fields_dict relations_dict : list (string * PyObj))
    (UUIDMixIn : ClassDesc) (msg : string) :
  msg ∈ stdout (handle fields_dict relations_dict UUIDMixIn) ->
  msg = "fields.py successfully generated"
  \/ exists f c parm,
       f ∈ field_list fields_dict relations_dict
       /\ c ∈ mro f ++ [UUIDMixIn]
       /\ declares c parm
       /\ ((msg = annotation_error parm /\ unknown_annotation (annotation parm) = true)
           \/ (msg = default_error parm /\ unknown_default (default parm) = true)).
Proof.
  rewrite handle_stdout. intros Hin. apply elem_of_app in Hin as [Hin|Hin];
    [|left; now apply list_elem_of_singleton in Hin].
  right. apply list_elem_of_join in Hin as (lines & Hmsg & Hlines).
  apply list_elem_of_fmap in Hlines as (f & -> & Hf).
  unfold merge in Hmsg. apply loop_printed_cause in Hmsg as [Hmsg|Hmsg];
    [inversion Hmsg|].
  destruct Hmsg as ([d c] & p & Hdc & Hdecl & Hmsg).
  exists f, c, p. split; [assumption|]. split; [|split; [assumption|]].
  - unfold param_classes in Hdc. apply elem_of_app in Hdc as [Hdc|Hdc]; apply elem_of_app.
    + left. now apply enumerate_members in Hdc.
    + right. apply list_elem_of_singleton in Hdc. injection Hdc as _ ->.
      now apply list_elem_of_singleton.
  - now apply parm_errors_cause.
Qed.

(** The error line of the run over [Sample.fields_dict]. *)
Lemma error_lines_have_a_cause_witness :
  default_error Sample.unit_parm ∈ stdout (handle Sample.fields_dict [] Sample.UUIDMixIn)
  /\ (default_error Sample.unit_parm = "fields.py successfully generated"
      \/ exists f c parm,
           f ∈ field_list Sample.fields_dict []
           /\ c ∈ mro f ++ [Sample.UUIDMixIn]
           /\ declares c parm
           /\ ((default_error Sample.unit_parm = annotation_error parm
                /\ unknown_annotation (annotation parm) = true)
               \/ (default_error Sample.unit_parm = default_error parm
                   /\ unknown_default (default parm) = true))).
Proof.
  assert (default_error Sample.unit_parm
            ∈ stdout (handle Sample.fields_dict [] Sample.UUIDMixIn)) as Hin by in_list.
  split; [exact Hin|].
  exact (error_lines_have_a_cause Sample.fields_dict [] Sample.UUIDMixIn _ Hin).
Defined.

(** X5. The names between [self] and [**kw] are pairwise different and
    none of them is [self]; the whole signature, [self] and [**kw]
    included, has no name twice unless a class declares an ordinary
    parameter called [kw]. *)
Theorem merged_names_are_unique (field : PyClass) (UUIDMixIn : ClassDesc) :
  NoDup (entry_name <$> field_params (merge field UUIDMixIn))
  /\ ("self" ∉ entry_name <$> field_params (merge field UUIDMixIn))
  /\ ("kw" ∉ entry_name <$> field_params (merge field UUIDMixIn) ->
      NoDup (signature_names (merge field UUIDMixIn))).
Proof. apply signature_names_unique. Qed.

(** ** The target's own parameters (lines 49-98 at depth 0) *)

Lemma process_parm_depth0_appends field_class st had parm :
  kept field_class parm = true ->
  name parm ∉ field_params_names st ->
  field_params (process_parm field_class 0 (st, had) parm).1
  = field_params st ++ [entry_of parm].
Proof.
  unfold kept, process_parm, ordering_skip. intros Hk Hnew.
  apply andb_true_iff in Hk as [Hu Hsv]. apply negb_true_iff in Hu, Hsv.
  rewrite Hu, Hsv. simpl.
  now rewrite (bool_decide_eq_false_2 _ Hnew).
Qed.

Lemma process_parm_dropped field_class depth st had parm :
  kept field_class parm = false ->
  field_params (process_parm field_class depth (st, had) parm).1 = field_params st.
Proof.
  unfold kept, process_parm. intros Hk.
  destruct (unwanted field_class parm); [reflexivity|].
  destruct (self_or_var parm); [reflexivity | discriminate].
Qed.

Lemma parm_loop_depth0 field_class parameters : forall st had,
  consistent st ->
  NoDup (name <$> parameters) ->
  (forall p, p ∈ parameters -> name p ∉ entry_name <$> field_params st) ->
  field_params (fold_left (process_parm field_class 0) parameters (st, had)).1
  = field_params st
    ++ (entry_of <$> filter (fun p => kept field_class p = true) parameters).
Proof.
  induction parameters as [|parm rest IH]; intros st had Hc Hnd Hfresh; cbn [fold_left].
  { now rewrite app_nil_r. }
  rewrite fmap_cons in Hnd. apply NoDup_cons in Hnd as [Hhead Hnd].
  pose proof (process_parm_consistent field_class 0 st had parm Hc) as Hc'.
  destruct (kept field_class parm) eqn:Hk.
  - assert (name parm ∉ field_params_names st) as Hnew.
    { intros Hin. apply (Hfresh parm); [apply elem_of_cons; now left|].
      now apply (names_agree st Hc). }
    pose proof (process_parm_depth0_appends field_class st had parm Hk Hnew) as Hstep.
    destruct (process_parm field_class 0 (st, had) parm) as [st' had'].
    simpl in Hstep, Hc'. rewrite (IH st' had' Hc' Hnd).
    + rewrite Hstep, filter_cons_True by assumption.
      rewrite fmap_cons, <- app_assoc. reflexivity.
    + intros p Hp. rewrite Hstep, fmap_app, elem_of_app. intros [Hin|Hin].
      * apply (Hfresh p); [apply elem_of_cons; now right | assumption].
      * simpl in Hin. apply list_elem_of_singleton in Hin.
        apply Hhead. unfold entry_name in Hin. simpl in Hin. rewrite <- Hin.
        apply list_elem_of_fmap. now exists p.
  - pose proof (process_parm_dropped field_class 0 st had parm Hk) as Hstep.
    destruct (process_parm field_class 0 (st, had) parm) as [st' had'].
    simpl in Hstep, Hc'. rewrite (IH st' had' Hc' Hnd).
    + rewrite Hstep, filter_cons_False; [reflexivity|]. now rewrite Hk.
    + intros p Hp. rewrite Hstep. apply Hfresh. apply elem_of_cons. now right.
Qed.

Lemma process_chain_extends field_class classes : forall st,
  consistent st ->
  exists tail,
    field_params (fold_left (process field_class) classes st) = field_params st ++ tail.
Proof.
  induction classes as [|dc rest IH]; intros st Hc; cbn [fold_left].
  { exists []. now rewrite app_nil_r. }
  destruct (process_class_extends field_class dc.1 dc.2 st Hc) as (tail1 & H1 & _).
  destruct (IH (process field_class st dc)
              (process_class_consistent field_class dc.1 dc.2 st Hc)) as (tail2 & H2).
  exists (tail1 ++ tail2). rewrite H2. unfold process at 1. rewrite H1.
  now rewrite app_assoc.
Qed.

(** X6. The parameters of the target's own constructor lead the
    signature: every one that is neither [self], variadic nor the
    [allow_null] of [BooleanField] stands there, in the order of the
    constructor and before anything an ancestor or the mix-in adds, and a
    name the target declares keeps the target's annotation and default. *)
Theorem target_parameters_lead (field : PyClass) (UUIDMixIn : ClassDesc)
    (parameters : list Parm) :
  cls_init (cls field) = Some parameters ->
  NoDup (name <$> parameters) ->
  (exists tail,
     field_params (merge field UUIDMixIn)
     = (entry_of <$> filter (fun p => kept (cls_name (cls field)) p = true) parameters)
       ++ tail)
  /\ (forall p e, p ∈ parameters -> kept (cls_name (cls field)) p = true ->
                  e ∈ field_params (merge field UUIDMixIn) ->
                  entry_name e = name p -> e = entry_of p).
Proof.
  intros Hinit Hnd.
  assert (exists tail,
     field_params (merge field UUIDMixIn)
     = (entry_of <$> filter (fun p => kept (cls_name (cls field)) p = true) parameters)
       ++ tail) as Hlead.
  { rewrite merge_mixin_last.
    destruct (process_class_extends (cls_name (cls field)) 0 UUIDMixIn (merge_chain field)
                (merge_chain_consistent field)) as (tail2 & H2 & _).
    rewrite H2, merge_chain_visited. unfold chain, mro. cbn [enumerate_until_Field visited].
    cbn [fold_left snd].
    set (rest := if class_had_kwds _ _ then _ else _).
    set (st0 := process (cls_name (cls field)) init_state (0%nat, cls field)).
    assert (consistent st0) as Hc0
      by apply process_class_consistent, consistent_init.
    destruct (process_chain_extends (cls_name (cls field)) rest st0 Hc0) as (tail1 & H1).
    rewrite H1. exists (tail1 ++ tail2). rewrite <- app_assoc. f_equal.
    subst st0. unfold process, process_class. simpl fst. simpl snd. rewrite Hinit.
    pose proof (parm_loop_depth0 (cls_name (cls field)) parameters
                  (with_skip_depth 0 init_state) false
                  (consistent_with_skip_depth 0 _ consistent_init) Hnd
                  ltac:(intros p _ Hin; inversion Hin)) as Hloop.
    destruct (fold_left _ parameters _) as [st' had]. simpl in Hloop.
    now destruct had. }
  split; [exact Hlead|].
  intros p e Hp Hk He Hname. destruct Hlead as (tail & Hlead).
  apply (nodup_fmap_unique entry_name (field_params (merge field UUIDMixIn)));
    [apply (names_nodup _ (merge_consistent field UUIDMixIn)) | assumption | | assumption].
  rewrite Hlead. apply elem_of_app. left. apply list_elem_of_fmap. exists p.
  split; [reflexivity|]. apply list_elem_of_filter. now split.
Qed.

(** The signature merged for [Sample.Tagged]. *)
Lemma target_parameters_lead_witness :
  cls_init (cls Sample.Tagged)
  = Some [Sample.self; Sample.keyword "kw" PyNone; Sample.keyword "kwarg_name" PyNone;
          Sample.var_keyword "kwargs"]
  /\ NoDup ["self"; "kw"; "kwarg_name"; "kwargs"]
  /\ exists tail,
       field_params (merge Sample.Tagged Sample.UUIDMixIn)
       = [entry_of (Sample.keyword "kw" PyNone);
          entry_of (Sample.keyword "kwarg_name" PyNone)] ++ tail.
Proof.
  assert (NoDup ["self"; "kw"; "kwarg_name"; "kwargs"]) as Hnd
    by in_list.
  split; [reflexivity|]. split; [exact Hnd|].
  exact (proj1 (target_parameters_lead Sample.Tagged Sample.UUIDMixIn _ eq_refl Hnd)).
Defined.

(** ** The width of the wrapped lines (line 105) *)

(** X10. No line that [textwrap.wrap] makes of a parameter list is longer
    than 103 characters, however long a single parameter is. *)
Theorem wrapped_lines_fit (st : MergeState) :
  Forall (fun line => (String.length line <= 103)%nat) (wrapped_params st).
Proof. apply wrapped_params_width. Qed.

(** ** What wrapping keeps of the text (line 105) *)

Lemma append_cons c a b : String c a +:+ b = String c (a +:+ b).
Proof. reflexivity. Qed.

Lemma append_nil_r a : a +:+ "" = a.
Proof. induction a as [|c a IH]; [reflexivity|]. now rewrite append_cons, IH. Qed.

Lemma append_assoc a b c : (a +:+ b) +:+ c = a +:+ (b +:+ c).
Proof. induction a as [|x a IH]; [reflexivity|]. now rewrite !append_cons, IH. Qed.

Lemma strip_spaces_app a b : strip_spaces (a +:+ b) = strip_spaces a +:+ strip_spaces b.
Proof.
  induction a as [|c a IH]; [reflexivity|]. rewrite append_cons. simpl.
  destruct (Ascii.eqb c " ")%char; [assumption|]. now rewrite append_cons, IH.
Qed.

Lemma strip_spaces_blank c : is_blank c = true -> strip_spaces c = "".
Proof.
  induction c as [|x c IH]; [reflexivity|]. simpl.
  destruct (Ascii.eqb x " ")%char; [assumption | discriminate].
Qed.

Lemma concat_cons c chunks :
  String.concat "" (c :: chunks) = c +:+ String.concat "" chunks.
Proof. destruct chunks; [now rewrite append_nil_r | reflexivity]. Qed.

Lemma concat_app a b :
  String.concat "" (a ++ b) = String.concat "" a +:+ String.concat "" b.
Proof.
  induction a as [|c a IH]; [reflexivity|].
  change ((c :: a) ++ b) with (c :: (a ++ b)). now rewrite !concat_cons, IH, append_assoc.
Qed.

Lemma concat_chunks_from s : forall before,
  String.concat "" (chunks_from before s) = s.
Proof.
  induction s as [|c s IH]; intros before; [reflexivity|]. cbn [chunks_from].
  specialize (IH (String c before)).
  destruct (chunks_from (String c before) s) as [|ch rest].
  - now rewrite <- IH.
  - rewrite concat_cons in IH.
    destruct (breaks_between (String c before) s);
      rewrite ?concat_cons, ?append_cons; now rewrite <- IH.
Qed.

Lemma concat_split_chunks s : String.concat "" (split_chunks s) = s.
Proof. apply concat_chunks_from. Qed.

Lemma substring_full s : substring 0 (String.length s) s = s.
Proof. induction s as [|c s IH]; [reflexivity|]. simpl. now rewrite IH. Qed.

Lemma substring_split s : forall n,
  (n <= String.length s)%nat ->
  substring 0 n s +:+ substring n (String.length s - n) s = s.
Proof.
  induction s as [|c s IH]; intros n Hn.
  - simpl in Hn. assert (n = 0)%nat as -> by lia. reflexivity.
  - destruct n as [|n].
    + rewrite Nat.sub_0_r, substring_full. reflexivity.
    + simpl in Hn. simpl substring. rewrite append_cons. f_equal. apply IH. lia.
Qed.

Lemma last_removelast (chunks : list string) c :
  last chunks = Some c -> chunks = removelast chunks ++ [c].
Proof.
  induction chunks as [|x rest IH]; intros Hlast; [discriminate|].
  destruct rest as [|y rest'].
  - simpl in Hlast. injection Hlast as ->. reflexivity.
  - change (last (x :: y :: rest')) with (last (y :: rest')) in Hlast.
    change (removelast (x :: y :: rest')) with (x :: removelast (y :: rest')).
    simpl. f_equal. now apply IH.
Qed.

Lemma drop_last_blank_keeps chunks :
  strip_spaces (String.concat "" (drop_last_blank chunks))
  = strip_spaces (String.concat "" chunks).
Proof.
  unfold drop_last_blank. destruct (last chunks) as [c|] eqn:Hlast; [|reflexivity].
  destruct (is_blank c) eqn:Hb; [|reflexivity].
  rewrite (last_removelast chunks c Hlast) at 2.
  rewrite concat_app, strip_spaces_app, concat_cons.
  change (String.concat "" []) with "". rewrite append_nil_r.
  now rewrite (strip_spaces_blank c Hb), append_nil_r.
Qed.

Lemma wrap_line_keeps width lines chunks :
  (1 <= width)%nat ->
  strip_spaces (String.concat "" (wrap_line width lines chunks).1)
    +:+ strip_spaces (String.concat "" (wrap_line width lines chunks).2)
  = strip_spaces (String.concat "" lines) +:+ strip_spaces (String.concat "" chunks).
Proof.
  intros Hw. unfold wrap_line.
  set (chunks0 := match chunks with [] => chunks | _ => _ end).
  assert (strip_spaces (String.concat "" chunks0) = strip_spaces (String.concat "" chunks))
    as <-.
  { subst chunks0. destruct chunks as [|c rest]; [reflexivity|].
    destruct (is_blank c && negb (bool_decide (lines = []))) eqn:Hdrop; [|reflexivity].
    apply andb_true_iff in Hdrop as [Hb _].
    now rewrite concat_cons, strip_spaces_app, (strip_spaces_blank c Hb). }
  pose proof (take_fitting_split width chunks0 0) as Hsplit.
  pose proof (take_fitting_length width chunks0 0 ltac:(lia)) as Hfit.
  destruct (take_fitting width 0 chunks0) as [cur rem]. simpl in Hsplit, Hfit.
  rewrite Hsplit. clear Hsplit chunks0.
  set (step := match rem with [] => (cur, rem) | _ => _ end).
  assert (String.concat "" step.1 +:+ String.concat "" step.2
          = String.concat "" cur +:+ String.concat "" rem) as Hstep.
  { subst step. destruct rem as [|c r]; [reflexivity|].
    destruct (width <? String.length c)%nat eqn:Hlong; [|reflexivity].
    apply Nat.ltb_lt in Hlong. unfold handle_long_word.
    assert ((width <? 1)%nat = false) as -> by (apply Nat.ltb_ge; lia).
    cbn [fst snd]. rewrite concat_app, !concat_cons.
    change (String.concat "" []) with "". rewrite append_nil_r, append_assoc.
    rewrite <- (append_assoc (substring 0 _ c)).
    pose proof (long_word_cut_bounds c (width - chunks_length cur)) as [Hcut _].
    rewrite (substring_split c (long_word_cut c (width - chunks_length cur))) by lia.
    reflexivity. }
  destruct step as [cur' rem']. cbn [fst snd] in Hstep |- *.
  rewrite (concat_app cur rem), <- Hstep, strip_spaces_app.
  rewrite <- (drop_last_blank_keeps cur').
  destruct (drop_last_blank cur') as [|x l].
  - reflexivity.
  - rewrite concat_app, strip_spaces_app, (concat_cons (String.concat "" (x :: l)) []).
    change (String.concat "" []) with "". rewrite append_nil_r.
    now rewrite append_assoc.
Qed.

Lemma wrap_chunks_keeps width : forall fuel lines chunks,
  (1 <= width)%nat ->
  Forall (fun c => (1 <= String.length c)%nat) chunks ->
  (chunks_length chunks < fuel)%nat ->
  strip_spaces (String.concat "" (wrap_chunks fuel width lines chunks))
  = strip_spaces (String.concat "" lines) +:+ strip_spaces (String.concat "" chunks).
Proof.
  induction fuel as [|fuel IH]; intros lines chunks Hw Hne Hfuel; [lia|].
  cbn [wrap_chunks]. destruct chunks as [|c rest].
  { change (String.concat "" []) with "". simpl strip_spaces at 3.
    now rewrite append_nil_r. }
  destruct (wrap_line_progress width lines c rest Hw Hne) as [Hne' Hlt].
  pose proof (wrap_line_keeps width lines (c :: rest) Hw) as Hkeep.
  destruct (wrap_line width lines (c :: rest)) as [lines' chunks'].
  cbn [fst snd] in *. rewrite IH; [exact Hkeep | assumption | assumption | lia].
Qed.

(** X11. Wrapping loses nothing but spaces: the wrapped lines, read one
    after the other without their spaces, are the parameter list that went
    into [textwrap.wrap] without its spaces. *)
Theorem wrapping_keeps_the_text (st : MergeState) :
  strip_spaces (String.concat "" (wrapped_params st))
  = strip_spaces (replace2 ":"%char " "%char ":_" (joined_params st)).
Proof.
  unfold wrapped_params, wrap.
  rewrite wrap_chunks_keeps;
    [| lia | apply split_chunks_nonempty | rewrite split_chunks_length; lia].
  now rewrite concat_split_chunks.
Qed.

(** ** Parameter lists that fit on one line (lines 103-106) *)

Lemma replace2_length a b n1 n2 s :
  String.length (replace2 a b (String n1 (String n2 "")) s) = String.length s.
Proof.
  induction s as [| c | c d r IHr IHdr] using string_pair_ind; [reflexivity..|].
  rewrite replace2_pair. destruct (Ascii.eqb c a && Ascii.eqb d b).
  - rewrite !append_cons. change ("" +:+ ?x) with x. cbn [String.length].
    now rewrite IHr.
  - cbn [String.length] in IHdr |- *. now rewrite IHdr.
Qed.

Lemma contains_char_cons c d s :
  contains_char c (String d s) = Ascii.eqb c d || contains_char c s.
Proof. reflexivity. Qed.

Lemma replace2_contains a b n1 n2 c s :
  Ascii.eqb c n1 = false -> Ascii.eqb c n2 = false ->
  contains_char c s = false ->
  contains_char c (replace2 a b (String n1 (String n2 "")) s) = false.
Proof.
  intros H1 H2.
  induction s as [| x | x y r IHr IHyr] using string_pair_ind; intros Hno;
    [assumption..|].
  rewrite replace2_pair.
  rewrite !contains_char_cons in Hno.
  apply orb_false_iff in Hno as [Hx Hno]. pose proof Hno as Hyr.
  apply orb_false_iff in Hno as [Hy Hr].
  destruct (Ascii.eqb x a && Ascii.eqb y b).
  - rewrite !append_cons. change ("" +:+ ?z) with z.
    rewrite !contains_char_cons, H1, H2. now apply IHr.
  - rewrite contains_char_cons, Hx. apply IHyr. now rewrite contains_char_cons.
Qed.

Lemma ends_with_space_cons c d r :
  ends_with_space (String c (String d r)) = ends_with_space (String d r).
Proof. reflexivity. Qed.

Lemma replace2_ends_with_space s :
  ends_with_space (replace2 ":"%char " "%char ":_" s) = true ->
  ends_with_space s = true.
Proof.
  induction s as [| c | c d r IHr IHdr] using string_pair_ind; [auto..|].
  rewrite replace2_pair. intros H.
  rewrite (ends_with_space_cons c d r).
  destruct (Ascii.eqb c ":" && Ascii.eqb d " ")%char.
  - change (":_" +:+ ?x) with (String ":"%char (String "_"%char x)) in H.
    rewrite ends_with_space_cons in H.
    destruct r as [|e r']; [discriminate|].
    destruct (replace2_head ":"%char " "%char ":_" e r') as (tail & Htail);
      [now exists "_"%char, ""|].
    rewrite (ends_with_space_cons d e r'). apply IHr.
    rewrite Htail in H |- *. now rewrite ends_with_space_cons in H.
  - destruct (replace2_head ":"%char " "%char ":_" d r) as (tail & Htail);
      [now exists "_"%char, ""|].
    apply IHdr. rewrite Htail in H |- *. now rewrite ends_with_space_cons in H.
Qed.

Lemma ends_with_space_app a c b :
  ends_with_space (a +:+ String c b) = ends_with_space (String c b).
Proof.
  induction a as [|x a IH]; [reflexivity|].
  rewrite append_cons. destruct a as [|y a'].
  - reflexivity.
  - rewrite append_cons in IH |- *. now rewrite ends_with_space_cons.
Qed.

Lemma join_cons sep x y rest :
  join sep (x :: y :: rest) = x +:+ sep +:+ join sep (y :: rest).
Proof. reflexivity. Qed.

Lemma join_ends sep c tail (xs : list string) : forall x,
  exists front, join sep (x :: xs ++ [String c tail]) = front +:+ String c tail.
Proof.
  induction xs as [|y ys IH]; intros x.
  - exists (x +:+ sep). simpl app. rewrite join_cons. simpl join.
    now rewrite append_assoc.
  - destruct (IH y) as (front & Hfront).
    exists (x +:+ sep +:+ front). change ((y :: ys) ++ ?l) with (y :: (ys ++ l)).
    rewrite join_cons, Hfront. now rewrite !append_assoc.
Qed.

Lemma joined_params_shape st :
  (exists rest, joined_params st = String "s"%char rest)
  /\ ends_with_space (joined_params st) = false.
Proof.
  assert (joined_params st
          = join ", " ("self" :: (e_str <$> field_params st) ++ ["**kw"])) as ->.
  { unfold joined_params, signature_strs, signature.
    now rewrite fmap_cons, fmap_app. }
  split.
  - destruct (e_str <$> field_params st) as [|y ys]; simpl app.
    + now eexists.
    + rewrite join_cons. now eexists.
  - destruct (join_ends ", " "*"%char "*kw" (e_str <$> field_params st) "self")
      as (front & ->).
    now rewrite ends_with_space_app.
Qed.

Lemma ends_with_space_blank c :
  (1 <= String.length c)%nat -> is_blank c = true -> ends_with_space c = true.
Proof.
  induction c as [|x c IH]; intros Hlen Hb; [simpl in Hlen; lia|].
  simpl in Hb. apply andb_true_iff in Hb as [Hx Hb].
  destruct c as [|y c'].
  - exact Hx.
  - rewrite ends_with_space_cons. apply IH; [simpl; lia | assumption].
Qed.

Lemma last_chunk_blank s : forall c,
  last (split_chunks s) = Some c -> is_blank c = true -> ends_with_space s = true.
Proof.
  intros c Hlast Hb.
  pose proof (split_chunks_nonempty s) as Hne.
  rewrite <- (concat_split_chunks s).
  rewrite (last_removelast _ _ Hlast) in Hne |- *.
  apply Forall_app in Hne as [_ Hne]. inversion Hne as [|x l Hc _]; subst.
  rewrite concat_app, concat_cons. change (String.concat "" []) with "".
  rewrite append_nil_r.
  destruct c as [|x c']; [simpl in Hc; lia|].
  rewrite ends_with_space_app. now apply ends_with_space_blank.
Qed.

Lemma take_fitting_all width chunks : forall cur_len,
  (cur_len + chunks_length chunks <= width)%nat ->
  take_fitting width cur_len chunks = (chunks, []).
Proof.
  induction chunks as [|c rest IH]; intros cur_len Hle; [reflexivity|].
  simpl in Hle. cbn [take_fitting].
  assert ((cur_len + String.length c <=? width)%nat = true) as -> by (apply Nat.leb_le; lia).
  rewrite IH by lia. reflexivity.
Qed.

Lemma wrap_short text width :
  (String.length text <= width)%nat ->
  (exists c rest, text = String c rest /\ Ascii.eqb c " "%char = false) ->
  ends_with_space text = false ->
  wrap text width = [text].
Proof.
  intros Hlen (c0 & rest0 & Htext & Hc0) Hend. unfold wrap.
  pose proof (concat_split_chunks text) as Hcat.
  pose proof (split_chunks_length text) as Hsum.
  pose proof (last_chunk_blank text) as Hlast.
  destruct (split_chunks text) as [|c rest] eqn:Hsplit.
  { simpl in Hcat. rewrite <- Hcat in Htext. discriminate. }
  cbn [wrap_chunks]. unfold wrap_line.
  assert (negb (bool_decide (@nil string = [])) = false) as -> by reflexivity.
  rewrite andb_false_r.
  rewrite take_fitting_all by (cbn [Nat.add]; rewrite Hsum; exact Hlen).
  assert (drop_last_blank (c :: rest) = c :: rest) as ->.
  { unfold drop_last_blank. destruct (last (c :: rest)) as [l|] eqn:Hl; [|reflexivity].
    destruct (is_blank l) eqn:Hb; [|reflexivity].
    rewrite (Hlast l eq_refl Hb) in Hend. discriminate. }
  rewrite Hcat. simpl app. now destruct (String.length text).
Qed.

Lemma split_lines_single s :
  contains_char "010"%char s = false -> split_lines s = [s].
Proof.
  induction s as [|c s IH]; intros Hno; [reflexivity|].
  rewrite contains_char_cons in Hno. apply orb_false_iff in Hno as [Hc Hs].
  cbn [split_lines]. rewrite Ascii.eqb_sym in Hc. rewrite Hc, (IH Hs). reflexivity.
Qed.

Lemma lstrip_spaces_prefix n c rest :
  Ascii.eqb c " "%char = false ->
  lstrip_spaces (spaces n +:+ String c rest) = String c rest.
Proof.
  intros Hc. induction n as [|n IH]; simpl spaces.
  - change ("" +:+ ?x) with x. simpl. now rewrite Hc.
  - rewrite append_cons. simpl. exact IH.
Qed.

(** X12. A parameter list of at most 103 characters that holds neither
    [:_] nor a line break is written between the parentheses as it is:
    on one line, the parameters in their order joined by [", "]. *)
Theorem short_signature_on_one_line (st : MergeState) :
  fits_on_one_line st = true ->
  wrapped_params st = [replace2 ":"%char " "%char ":_" (joined_params st)]
  /\ render_params st = joined_params st.
Proof.
  unfold fits_on_one_line. intros H.
  apply andb_true_iff in H as [H Hnl]. apply andb_true_iff in H as [Hlen Hmark].
  apply Nat.leb_le in Hlen. apply negb_true_iff in Hnl, Hmark.
  destruct (joined_params_shape st) as [(rest & Hs) Hend].
  set (text := replace2 ":"%char " "%char ":_" (joined_params st)).
  assert (exists tail, text = String "s"%char tail) as (tail & Htext).
  { subst text. rewrite Hs. apply replace2_head. now exists "_"%char, "". }
  assert (wrapped_params st = [text]) as Hwrap.
  { unfold wrapped_params. fold (joined_params st). fold text. apply wrap_short.
    - subst text. change ":_" with (String ":"%char (String "_"%char "")).
      now rewrite replace2_length.
    - exists "s"%char, tail. now split.
    - destruct (ends_with_space text) eqn:He; [|reflexivity].
      apply replace2_ends_with_space in He. congruence. }
  split; [exact Hwrap|].
  unfold render_params. rewrite Hwrap. simpl join. unfold indent.
  rewrite split_lines_single.
  - simpl map. rewrite Htext. simpl is_blank. simpl join.
    change (replace2 ":"%char "_"%char ": "
              (lstrip_spaces (spaces 37 +:+ String "s"%char tail)) = joined_params st).
    rewrite lstrip_spaces_prefix by reflexivity. rewrite <- Htext. subst text.
    now apply replace2_undo.
  - subst text. change ":_" with (String ":"%char (String "_"%char "")).
    now apply replace2_contains.
Qed.

(** The signature merged for [Sample.Base], 40 characters long. *)
Lemma short_signature_on_one_line_witness :
  fits_on_one_line (merge Sample.Base Sample.UUIDMixIn) = true
  /\ render_params (merge Sample.Base Sample.UUIDMixIn)
     = "self, choices=None, uuid: UUID=None, **kw".
Proof.
  split; [reflexivity|].
  exact (proj2 (short_signature_on_one_line (merge Sample.Base Sample.UUIDMixIn) eq_refl)).
Defined.

(** * Filtering of list views *)

Section FilteringProperties.
Variable strptime : string -> string -> option Views.DateTime.
Variables DATETIME_FORMAT DATE_FORMAT : string.

Abbreviation filter_field := (Views.filter_queryset_field strptime DATETIME_FORMAT DATE_FORMAT).
Abbreviation filter_all := (Views.filter_queryset strptime DATETIME_FORMAT DATE_FORMAT).

Lemma prefix_refl s : String.prefix s s = true.
Proof. rewrite <- (append_nil_r s) at 2. apply prefix_append. Qed.

Lemma filter_field_model queryset field value :
  Views.model_fields (filter_field queryset field value) = Views.model_fields queryset.
Proof.
  unfold Views.filter_queryset_field. destruct value as [v|]; [|reflexivity].
  destruct (String.eqb v ""); [reflexivity|].
  destruct (Views.get_field queryset field) as [f|]; [|reflexivity].
  destruct (Views.is_text f); [reflexivity|].
  destruct (Views.is_date f); [|reflexivity].
  destruct (Views.parse_date_time strptime DATETIME_FORMAT DATE_FORMAT v) as [dt|];
    [|reflexivity].
  now destruct (_ && _).
Qed.

Lemma filter_field_idle queryset fv :
  Views.names_a_field queryset fv = false ->
  filter_field queryset fv.1 (Some fv.2) = queryset.
Proof.
  unfold Views.names_a_field, Views.filter_queryset_field. intros H.
  destruct (String.eqb fv.2 ""); [reflexivity|].
  destruct (Views.get_field queryset fv.1); [discriminate | reflexivity].
Qed.

Lemma filter_field_lookups queryset field value :
  exists added,
    Views.lookups (filter_field queryset field value) = Views.lookups queryset ++ added
    /\ (length added <= 1)%nat.
Proof.
  unfold Views.filter_queryset_field.
  assert (exists added, Views.lookups queryset = Views.lookups queryset ++ added
                        /\ (length added <= 1)%nat) as Hsame
    by (exists []; rewrite app_nil_r; split; [reflexivity | simpl; lia]).
  assert (forall kw v, exists added,
            Views.lookups (Views.qs_filter queryset kw v) = Views.lookups queryset ++ added
            /\ (length added <= 1)%nat) as Hone
    by (intros kw v; exists [Views.mkLookup kw v]; split; [reflexivity | simpl; lia]).
  destruct value as [v|]; [|exact Hsame].
  destruct (String.eqb v ""); [exact Hsame|].
  destruct (Views.get_field queryset field) as [f|]; [|exact Hsame].
  destruct (Views.is_text f); [apply Hone|].
  destruct (Views.is_date f); [|apply Hone].
  destruct (Views.parse_date_time strptime DATETIME_FORMAT DATE_FORMAT v) as [dt|];
    [|exact Hsame].
  destruct (_ && _); apply Hone.
Qed.

Lemma qs_filter_changes queryset kw v : Views.qs_filter queryset kw v <> queryset.
Proof.
  intros Heq. apply (f_equal Views.lookups) in Heq. apply (f_equal length) in Heq.
  simpl in Heq. rewrite length_app in Heq. simpl in Heq. lia.
Qed.

(** X14. What one query parameter does to a queryset: the model stays as
    it is; the queryset comes back unchanged exactly when the value is
    [None] or empty, the model has no field of that name, or the field is
    a date field and none of the four formats parses the value; in every
    other case one lookup is added behind the ones there are, its keyword
    starting with the parameter's name. *)
Theorem filter_queryset_field_effect (queryset : Views.QuerySet) (field : string)
    (value : option string) :
  Views.model_fields (filter_field queryset field value) = Views.model_fields queryset
  /\ (filter_field queryset field value = queryset
      <-> Views.leaves_unfiltered strptime DATETIME_FORMAT DATE_FORMAT queryset field value)
  /\ (Views.leaves_unfiltered strptime DATETIME_FORMAT DATE_FORMAT queryset field value
      \/ exists l v, value = Some v /\ v <> ""
                     /\ Views.lookups (filter_field queryset field value)
                        = Views.lookups queryset ++ [l]
                     /\ String.prefix field (Views.keyword l) = true).
Proof.
  split; [apply filter_field_model|].
  unfold Views.filter_queryset_field, Views.leaves_unfiltered.
  destruct value as [v|];
    [|split; [split; [intros _; now left | intros _; reflexivity] | left; now left]].
  destruct (String.eqb v "") eqn:Hv.
  { apply String.eqb_eq in Hv. subst v.
    split; [split; [intros _; right; now left | intros _; reflexivity]
           | left; right; now left]. }
  apply String.eqb_neq in Hv.
  destruct (Views.get_field queryset field) as [f|] eqn:Hf;
    [|split; [split; [intros _; right; right; now left | intros _; reflexivity]
             | left; right; right; now left]].
  assert (forall kw op,
            String.prefix field kw = true ->
            (Views.is_text f = true \/ Views.is_date f = false
             \/ Views.parse_date_time strptime DATETIME_FORMAT DATE_FORMAT v <> None) ->
            (Views.qs_filter queryset kw op = queryset
             <-> Some v = None \/ Some v = Some "" \/ Some f = None
                 \/ exists f' v', Some v = Some v' /\ Some f = Some f'
                       /\ Views.is_text f' = false /\ Views.is_date f' = true
                       /\ Views.parse_date_time strptime DATETIME_FORMAT DATE_FORMAT v' = None)
            /\ ((Some v = None \/ Some v = Some "" \/ Some f = None
                 \/ exists f' v', Some v = Some v' /\ Some f = Some f'
                       /\ Views.is_text f' = false /\ Views.is_date f' = true
                       /\ Views.parse_date_time strptime DATETIME_FORMAT DATE_FORMAT v' = None)
                \/ exists l v', Some v = Some v' /\ v' <> ""
                     /\ Views.lookups (Views.qs_filter queryset kw op)
                        = Views.lookups queryset ++ [l]
                     /\ String.prefix field (Views.keyword l) = true)) as Hadds.
  { intros kw op Hkw Hcase. split.
    - split; [intros Heq; now apply qs_filter_changes in Heq|].
      intros [Habs|[Habs|[Habs|(f' & v' & Hv' & Hf' & Ht & Hd & Hp)]]]; try discriminate.
      + injection Habs as ->. now destruct Hv.
      + injection Hv' as <-. injection Hf' as <-.
        destruct Hcase as [Hc|[Hc|Hc]]; congruence.
    - right. exists (Views.mkLookup kw op), v. repeat split; assumption. }
  destruct (Views.is_text f) eqn:Ht.
  { apply Hadds; [apply prefix_append | now left]. }
  destruct (Views.is_date f) eqn:Hd.
  - destruct (Views.parse_date_time strptime DATETIME_FORMAT DATE_FORMAT v) as [dt|] eqn:Hp.
    + destruct (_ && _); (apply Hadds; [apply prefix_append | right; right; discriminate]).
    + assert (exists f' v', Some v = Some v' /\ Some f = Some f'
                /\ Views.is_text f' = false /\ Views.is_date f' = true
                /\ Views.parse_date_time strptime DATETIME_FORMAT DATE_FORMAT v' = None)
        as Hidle by now exists f, v.
      split; [split; [intros _; right; right; right; exact Hidle | intros _; reflexivity]
             | left; right; right; right; exact Hidle].
  - apply Hadds; [apply prefix_refl | right; now left].
Qed.

Lemma names_a_field_model queryset queryset' fv :
  Views.model_fields queryset' = Views.model_fields queryset ->
  Views.names_a_field queryset' fv = Views.names_a_field queryset fv.
Proof. unfold Views.names_a_field, Views.get_field. now intros ->. Qed.

Lemma filter_all_idle query_params : forall queryset,
  filter_all queryset query_params
  = filter_all queryset
      (filter (fun fv => Views.names_a_field queryset fv = true) query_params)
  /\ Views.model_fields (filter_all queryset query_params) = Views.model_fields queryset
  /\ exists added,
       Views.lookups (filter_all queryset query_params) = Views.lookups queryset ++ added
       /\ (length added
           <= length (filter (fun fv => Views.names_a_field queryset fv = true) query_params))%nat.
Proof.
  induction query_params as [|fv rest IH]; intros queryset.
  { split; [reflexivity|]. split; [reflexivity|]. exists []. rewrite app_nil_r. now split. }
  unfold Views.filter_queryset in IH |- *. cbn [fold_left].
  set (next := filter_field queryset fv.1 (Some fv.2)).
  pose proof (filter_field_model queryset fv.1 (Some fv.2)) as Hmodel. fold next in Hmodel.
  destruct (IH next) as (Heq & Hm & added & Hadd & Hlen).
  assert (filter (fun fv0 => Views.names_a_field next fv0 = true) rest
          = filter (fun fv0 => Views.names_a_field queryset fv0 = true) rest) as Hfilter.
  { apply list_filter_iff. intros x. now rewrite (names_a_field_model queryset next x Hmodel). }
  rewrite Hfilter in Heq, Hlen.
  destruct (Views.names_a_field queryset fv) eqn:Hfv.
  - rewrite filter_cons_True by assumption. cbn [fold_left]. fold next.
    split; [exact Heq|]. split; [now rewrite Hm|].
    destruct (filter_field_lookups queryset fv.1 (Some fv.2)) as (one & Hone & Hlen1).
    fold next in Hone. exists (one ++ added). rewrite Hadd, Hone, <- app_assoc.
    split; [reflexivity|]. rewrite length_app. simpl. lia.
  - rewrite filter_cons_False by (rewrite Hfv; discriminate).
    assert (next = queryset) as Hidle by (subst next; now apply filter_field_idle).
    rewrite Hidle in Heq, Hm, Hadd |- *. split; [exact Heq|]. split; [exact Hm|].
    exists added. now split.
Qed.

(** X15. Over all query parameters: the model stays as it is, the lookups
    the queryset had stay in front and at most one is added per parameter
    that has a value and names a field of the model; a parameter with an
    empty value or a name the model does not have (a page number, a render
    type) can be left out without changing the result. *)
Theorem filter_queryset_ignores_idle_parameters (queryset : Views.QuerySet)
    (query_params : list (string * string)) :
  filter_all queryset query_params
  = filter_all queryset
      (filter (fun fv => Views.names_a_field queryset fv = true) query_params)
  /\ Views.model_fields (filter_all queryset query_params) = Views.model_fields queryset
  /\ exists added,
       Views.lookups (filter_all queryset query_params) = Views.lookups queryset ++ added
       /\ (length added
           <= length (filter (fun fv => Views.names_a_field queryset fv = true) query_params))%nat.
Proof. apply filter_all_idle. Qed.

End FilteringProperties.

Example filter_queryset_sample :
  Views.lookups
    (Views.filter_queryset Views.sample_strptime "N j, Y, P" "N j, Y" Views.sample_model
       [("title", "tax"); ("page", "2"); ("due", "2019-03-01"); ("due", "soon");
        ("done", "True"); ("title", "")])
  = [Views.mkLookup "title__icontains" (Views.OText "tax");
     Views.mkLookup "due__contains" (Views.ODate 2019 3 1);
     Views.mkLookup "done" (Views.OBool false)].
Proof. vm_compute. reflexivity. Qed.

(** * The record that does not exist yet *)

(** X16. [retrieve] leaves what the framework's [retrieve] ends in alone
    unless that is a 404.  After a 404 the new record is served when the
    lookup field is [pk] and the URL captured [new] for it; with any other
    lookup field the new record is not looked at, whatever the URL holds:
    the 404 stands, or a [KeyError] when the URL captured nothing under
    the lookup name. *)
Theorem new_record_only_for_pk {R : Type} (super_retrieve : Views.Outcome R)
    (lookup_url_kwarg : option string) (lookup_field : string)
    (kwargs : gmap string string) (new_record : Views.Outcome R) :
  (super_retrieve <> Views.Raise Views.Http404 ->
   Views.retrieve super_retrieve lookup_url_kwarg lookup_field kwargs new_record
   = super_retrieve)
  /\ (super_retrieve = Views.Raise Views.Http404 -> lookup_field <> "pk" ->
      Views.retrieve super_retrieve lookup_url_kwarg lookup_field kwargs new_record
      = Views.Raise Views.Http404
      \/ exists key,
           Views.retrieve super_retrieve lookup_url_kwarg lookup_field kwargs new_record
           = Views.Raise (Views.KeyError key) /\ kwargs !! key = None)
  /\ (super_retrieve = Views.Raise Views.Http404 -> lookup_field = "pk" ->
      lookup_url_kwarg = None \/ lookup_url_kwarg = Some "" ->
      forall captured, kwargs !! "pk" = Some captured ->
        Views.retrieve super_retrieve lookup_url_kwarg lookup_field kwargs new_record
        = if bool_decide (captured = "new") then new_record
          else Views.Raise Views.Http404).
Proof.
  split; [|split].
  - intros Hne. destruct super_retrieve as [r|[]]; try reflexivity. now destruct Hne.
  - intros -> Hpk. unfold Views.retrieve.
    set (key := match lookup_url_kwarg with Some k => _ | None => _ end).
    destruct (kwargs !! key) as [captured|] eqn:Hk; [left | right; now exists key].
    rewrite lookup_singleton_ne by assumption.
    rewrite bool_decide_eq_false_2 by discriminate. reflexivity.
  - intros -> -> Hurl captured Hk. unfold Views.retrieve.
    assert (match lookup_url_kwarg with
            | Some k => if String.eqb k "" then "pk" else k
            | None => "pk"
            end = "pk") as -> by (destruct Hurl as [->| ->]; reflexivity).
    rewrite Hk, lookup_singleton_eq.
    destruct (bool_decide (captured = "new")) eqn:Hc.
    + apply bool_decide_eq_true in Hc. subst captured.
      now rewrite bool_decide_eq_true_2.
    + apply bool_decide_eq_false in Hc.
      rewrite bool_decide_eq_false_2; [reflexivity|]. intros [= Heq]. now apply Hc.
Qed.
